(** * CSI to ICC code matching: the keyword matcher and the search endpoint

    A shallow embedding of [backend/app/keyword_matcher.py],
    [backend/app/crud.py] (the lookups of the search and of the mapping
    handlers), [backend/app/models.py], the description validator of
    [backend/app/schemas.py] and the handlers of
    [backend/app/routers/codes.py] that read or write mappings, with the
    properties of the matching engine stated and proved over it.

    Conventions of the embedding:
    - Python [str] is [string], read as ASCII text; [None] is [option]'s [None].
    - similarity scores are rationals ([Q]): a finite float is a rational and
      the code only compares scores, so a float literal is read as the decimal
      it spells;
    - the TF-IDF vectorizer and the cosine similarity are scikit-learn's and
      [argsort] is NumPy's: they are Section variables ([fit], [transform],
      [cosine_similarity], [argsort]), the last under NumPy's contract where
      a property needs it;
    - the database is a record of tables (lists of rows in storage order); the
      SQLAlchemy session carries the committed rows, the objects added and not
      yet committed, and a journal of the writes issued. *)

From Stdlib Require Import QArith Ascii Lqa.
From stdpp Require Import gmap strings list pretty sorting.

Local Open Scope Z_scope.

(** ** Python built-ins used by the sources *)

(** Truthiness of an optional string attribute: [None] and [""] are falsy. *)
Definition truthy_str (o : option string) : option string :=
  match o with
  | Some (String c s) => Some (String c s)
  | _ => None
  end.

(** Truthiness of an optional integer attribute: [None] and [0] are falsy. *)
Definition truthy_int (o : option Z) : option Z :=
  match o with
  | Some 0 => None
  | Some n => Some n
  | None => None
  end.

(** [sep.join(parts)]. *)
Definition join (sep : string) (parts : list string) : string :=
  String.concat sep parts.

(** [str.lower()] on ASCII text. *)
Definition ascii_lower (c : ascii) : ascii :=
  let n := N_of_ascii c in
  if ((65 <=? n) && (n <=? 90))%N then ascii_of_N (n + 32) else c.

Fixpoint lower (s : string) : string :=
  match s with
  | EmptyString => EmptyString
  | String c s' => String (ascii_lower c) (lower s')
  end.

(** [str.isspace()] on one ASCII character: tab, line feed, vertical tab, form
    feed, carriage return, the four separators 28..31, and the space. *)
Definition isspace (c : ascii) : bool :=
  let n := N_of_ascii c in
  (((9 <=? n) && (n <=? 13)) || ((28 <=? n) && (n <=? 32)))%N.

(** [str.split()] without argument: the maximal runs of non-whitespace. *)
Fixpoint split_from (word : string) (s : string) : list string :=
  match s with
  | EmptyString => match word with EmptyString => [] | _ => [word] end
  | String c s' =>
      if isspace c
      then match word with EmptyString => [] | _ => [word] end ++ split_from "" s'
      else split_from (word +:+ String c "") s'
  end.

Definition split (s : string) : list string := split_from "" s.

(** [l[:n]] for an integer [n]: a negative [n] counts from the end. *)
Definition slice_to {A} (n : Z) (l : list A) : list A :=
  if 0 <=? n then take (Z.to_nat n) l
  else take (length l - Z.to_nat (- n))%nat l.

(** [l[::-1]]. *)
Definition reversed {A} (l : list A) : list A := reverse l.

(** A stable insertion sort: [x] is placed before the first [y] with
    [lte x y], so it stays in front of the later elements it ties with. *)
Fixpoint insert_stable {A} (lte : A → A → bool) (x : A) (l : list A) : list A :=
  match l with
  | [] => [x]
  | y :: l' => if lte x y then x :: y :: l' else y :: insert_stable lte x l'
  end.

Definition sort_stable {A} (lte : A → A → bool) (l : list A) : list A :=
  foldr (insert_stable lte) [] l.

(** [sorted(xs, key=len, reverse=True)]: stable, longest first. *)
Definition sorted_len_reverse (xs : list string) : list string :=
  sort_stable (λ x y, (String.length y <=? String.length x)%nat) xs.

(** [np.argsort(a)] by insertion: the indices of [a] in ascending order of
    value, an index staying in front of the later indices it ties with.
    NumPy promises no order among equal values for its default kind; its
    generic implementation sorts an array of up to 16 elements by insertion,
    and [kind="stable"] gives this order for every length. *)
Definition insertion_argsort (a : list Q) : list nat :=
  (sort_stable (λ x y, Qle_bool x.2 y.2) (imap (λ i x, (i, x)) a)).*1.

(** What NumPy promises of [np.argsort] on an array [a] of numbers: the
    indices of [a], each once, in ascending order of value. *)
Definition ascending (a : list Q) (i j : nat) : Prop :=
  ∃ x y, a !! i = Some x ∧ a !! j = Some y ∧ (x <= y)%Q.

Definition argsort_contract (argsort : list Q → list nat) : Prop :=
  ∀ a, argsort a ≡ₚ seq 0 (length a) ∧ StronglySorted (ascending a) (argsort a).

(** A stable argsort lists equal values by increasing index. *)
Definition ascending_stable (a : list Q) (i j : nat) : Prop :=
  ∃ x y, a !! i = Some x ∧ a !! j = Some y
         ∧ ((x < y)%Q ∨ ((x == y)%Q ∧ (i < j)%nat)).

Definition argsort_stable (argsort : list Q → list nat) (a : list Q) : Prop :=
  StronglySorted (ascending_stable a) (argsort a).

(** [x < y] on scores. *)
Definition Qlt_bool (x y : Q) : bool := negb (Qle_bool y x).

(** ** Rows of the database ([models.py]) *)

Module CSICode.
Record t := mk {
  id : Z;
  code : option string;
  division : Z;
  title : option string;
  description : option string }.
End CSICode.

Module ICCDocument.
Record t := mk {
  id : Z;
  code : string;
  year : Z;
  title : string;
  state : option string;
  base_url : string }.
End ICCDocument.

Module ICCSection.
Record t := mk {
  id : Z;
  document_id : Z;
  section_number : option string;
  title : option string;
  chapter : option Z;
  url : string;
  description : option string }.
End ICCSection.

Module CSIICCMapping.
Record t := mk {
  id : option Z;             (* assigned by the database on insertion *)
  csi_code_id : Z;
  icc_section_id : Z;
  relevance : option string;
  notes : option string;
  created_at : option Z }.
End CSIICCMapping.

(** ** Corpus Builder, query text ([KeywordMatcher]) *)

(** [KeywordMatcher._create_searchable_text]. *)
Definition _create_searchable_text (section : ICCSection.t) : string :=
  let parts := [] in
  let parts :=
    match truthy_str (ICCSection.section_number section) with
    | Some number => parts ++ [number]
    | None => parts
    end in
  let parts :=
    match truthy_str (ICCSection.title section) with
    | Some title => (parts ++ [title]) ++ [title]
    | None => parts
    end in
  let parts :=
    match truthy_str (ICCSection.description section) with
    | Some description => parts ++ [description]
    | None => parts
    end in
  let parts :=
    match truthy_int (ICCSection.chapter section) with
    | Some chapter => parts ++ ["chapter " +:+ pretty chapter]
    | None => parts
    end in
  join " " parts.

(** [KeywordMatcher._create_csi_query]. *)
Definition _create_csi_query (csi_code : CSICode.t) : string :=
  let parts := [] in
  let parts :=
    match truthy_str (CSICode.code csi_code) with
    | Some code => parts ++ [code]
    | None => parts
    end in
  let parts :=
    match truthy_str (CSICode.title csi_code) with
    | Some title => ((parts ++ [title]) ++ [title]) ++ [title]
    | None => parts
    end in
  let parts :=
    match truthy_str (CSICode.description csi_code) with
    | Some description => parts ++ [description]
    | None => parts
    end in
  join " " parts.

(** ** Match Explainer and Confidence Classifier *)

Definition stop_words : gset string :=
  list_to_set ["the"; "a"; "an"; "and"; "or"; "but"; "in"; "on"; "at"; "to";
               "for"; "of"; "with"; "by"].

(** [KeywordMatcher._find_matched_keywords]. A Python [set] is a [gset]; its
    iteration order is that of [elements]. *)
Definition _find_matched_keywords (query text : string) : list string :=
  let query_words : gset string := list_to_set (split (lower query)) in
  let text_words : gset string := list_to_set (split (lower text)) in
  let query_words := query_words ∖ stop_words in
  let text_words := text_words ∖ stop_words in
  let matched := query_words ∩ text_words in
  take 5 (sorted_len_reverse (elements matched)).

(** [KeywordMatcher._score_to_confidence]. *)
Definition _score_to_confidence (score : Q) : string :=
  if Qle_bool 0.5 score then "high"
  else if Qle_bool 0.3 score then "medium"
  else if Qle_bool 0.15 score then "low"
  else "very_low".

(** ** The database and the SQLAlchemy session *)

(** The tables, by their [__tablename__]; rows are in storage order. *)
Record Database := mkDatabase {
  csi_codes : list CSICode.t;
  icc_documents : list ICCDocument.t;
  icc_sections : list ICCSection.t;
  csi_icc_mappings : list CSIICCMapping.t }.

(** The writes a session can be asked for. *)
Inductive Write :=
  | WAdd (mapping : CSIICCMapping.t)
  | WCommit.

(** A session: the committed rows, the mappings added and not yet committed,
    the [autoflush] setting of the session factory ([app/database.py] is not
    part of the sources, so the setting is a field), and the journal of the
    writes issued so far. *)
Record Session := mkSession {
  store : Database;
  pending : list CSIICCMapping.t;
  autoflush : bool;
  journal : list Write }.

Inductive Exception :=
  | ValueError (msg : string)
  | RuntimeError (msg : string)
  | IndexError
  | IntegrityError
  | VectorizerError (msg : string)
  | HTTPException (status_code : Z) (detail : string).

Inductive Result (A : Type) :=
  | Ok (a : A)
  | Raise (e : Exception).
Arguments Ok {A} a.
Arguments Raise {A} e.

(** Code that runs against a session and may raise. *)
Definition DB (A : Type) : Type := Session → Session * Result A.

Definition ret {A} (a : A) : DB A := λ s, (s, Ok a).
Definition raise {A} (e : Exception) : DB A := λ s, (s, Raise e).
Definition bind {A B} (m : DB A) (k : A → DB B) : DB B := λ s,
  match m s with
  | (s', Ok a) => k a s'
  | (s', Raise e) => (s', Raise e)
  end.
(** [try: body except Exception as e: handler]. *)
Definition try_except {A} (body : DB A) (handler : Exception → DB A) : DB A := λ s,
  match body s with
  | (s', Ok a) => (s', Ok a)
  | (s', Raise e) => handler e s'
  end.
(** A read: [db.query(...)...] evaluated on what the session sees. *)
Definition query {A} (q : Session → A) : DB A := λ s, (s, Ok (q s)).
(** A computation that does not touch the session. *)
Definition lift {A} (r : Result A) : DB A := λ s, (s, r).

Notation "'let!' x ':=' m 'in' k" := (bind m (λ x, k))
  (at level 10, x name, m at level 100, k at level 200, only parsing).
Notation "'run!' m 'in' k" := (bind m (λ _, k))
  (at level 10, m at level 100, k at level 200, only parsing).

(** Code that leaves the session as it found it. *)
Definition read_only {A} (m : DB A) : Prop := ∀ s, (m s).1 = s.

(** The unique constraint [uix_csi_icc] of [CSIICCMapping]: the key of a row. *)
Definition mapping_key (m : CSIICCMapping.t) : Z * Z :=
  (CSIICCMapping.csi_code_id m, CSIICCMapping.icc_section_id m).

(** The mapping rows a query sees: the committed ones and, when the session
    autoflushes, those added in the running transaction. *)
Definition visible_mappings (s : Session) : list CSIICCMapping.t :=
  csi_icc_mappings (store s) ++ (if autoflush s then pending s else []).

(** The next primary key of the mappings table. *)
Definition next_id (rows : list CSIICCMapping.t) : Z :=
  1 + foldr (λ m acc, Z.max (default 0 (CSIICCMapping.id m)) acc) 0 rows.

(** INSERT of the added objects, in order; [None] when a row breaks the
    unique constraint. *)
Fixpoint flush (rows : list CSIICCMapping.t) (added : list CSIICCMapping.t)
  : option (list CSIICCMapping.t) :=
  match added with
  | [] => Some rows
  | m :: added' =>
      if bool_decide (mapping_key m ∈ mapping_key <$> rows) then None
      else
        flush (rows ++ [CSIICCMapping.mk (Some (next_id rows))
                          (CSIICCMapping.csi_code_id m)
                          (CSIICCMapping.icc_section_id m)
                          (CSIICCMapping.relevance m)
                          (CSIICCMapping.notes m)
                          (CSIICCMapping.created_at m)]) added'
  end.

(** [db.add(mapping)]. *)
Definition db_add (mapping : CSIICCMapping.t) : DB unit := λ s,
  (mkSession (store s) (pending s ++ [mapping]) (autoflush s)
             (journal s ++ [WAdd mapping]), Ok tt).

(** [db.commit()]: the added objects are inserted and made durable, or the
    transaction is rolled back with [IntegrityError]. *)
Definition db_commit : DB unit := λ s,
  let db := store s in
  match flush (csi_icc_mappings db) (pending s) with
  | Some rows =>
      (mkSession (mkDatabase (csi_codes db) (icc_documents db) (icc_sections db) rows)
                 [] (autoflush s) (journal s ++ [WCommit]), Ok tt)
  | None =>
      (mkSession db [] (autoflush s) (journal s ++ [WCommit]), Raise IntegrityError)
  end.

(** ** Curated lookup ([crud.py]) *)

(** [crud.get_csi_code]. *)
Definition get_csi_code (code : string) : DB (option CSICode.t) :=
  query (λ s, head (filter (λ c, CSICode.code c = Some code) (csi_codes (store s)))).

(** An optional filter of a query: applied only when its value is truthy. *)
Definition passes {A} (truthy : option A) (column : option A) : Prop :=
  truthy = None ∨ column = truthy.

Global Instance passes_dec {A} `{EqDecision A} (truthy column : option A) :
  Decision (passes truthy column).
Proof. unfold passes. apply _. Defined.

(** [crud.get_icc_sections_for_csi_code]: the sections joined to a mapping, to
    the mapping's CSI code and to their document, with the optional filters. *)
Definition get_icc_sections_for_csi_code (csi_code : string)
    (state : option string) (year : option Z) (icc_document : option string)
  : DB (list ICCSection.t) :=
  query (λ s,
    let db := store s in
    filter (λ sec,
      Exists (λ m,
        CSIICCMapping.icc_section_id m = ICCSection.id sec
        ∧ Exists (λ c, CSIICCMapping.csi_code_id m = CSICode.id c
                       ∧ CSICode.code c = Some csi_code) (csi_codes db))
        (visible_mappings s)
      ∧ Exists (λ d,
          ICCSection.document_id sec = ICCDocument.id d
          ∧ passes (truthy_str state) (ICCDocument.state d)
          ∧ passes (truthy_int year) (Some (ICCDocument.year d))
          ∧ passes (truthy_str icc_document) (Some (ICCDocument.code d)))
          (icc_documents db))
      (icc_sections db)).

(** The dictionary [crud.search_csi_to_icc] returns and [search_codes]
    completes; the key ["source"] is absent until the handler sets it. *)
Module SearchResult.
Record t := mk {
  csi_code : CSICode.t;
  icc_sections : list ICCSection.t;
  total_results : Z;
  source : option string }.
End SearchResult.

(** [crud.search_csi_to_icc]. *)
Definition search_csi_to_icc (csi_code : string)
    (state : option string) (year : option Z) (icc_document : option string)
  : DB (option SearchResult.t) :=
  let! csi := get_csi_code csi_code in
  match csi with
  | None => ret None
  | Some csi =>
      let! icc_sections :=
        get_icc_sections_for_csi_code csi_code state year icc_document in
      ret (Some (SearchResult.mk csi icc_sections
                   (Z.of_nat (length icc_sections)) None))
  end.

(** [schemas.SearchRequest]. *)
Module SearchRequest.
Record t := mk {
  csi_code : string;
  state : option string;
  year : option Z;
  icc_document : option string }.
End SearchRequest.

(** The dictionaries [KeywordMatcher.find_matches] returns. *)
Module MatchResult.
Record t := mk {
  section : ICCSection.t;
  score : Q;
  matched_keywords : list string;
  confidence : string }.
End MatchResult.

(** ** Mapping Synthesizer ([create_keyword_mappings]) *)

(** The default [relevance_map]. *)
Definition default_relevance_map : gmap string string :=
  <["high" := "primary"]> (<["medium" := "secondary"]>
  (<["low" := "reference"]> (<["very_low" := "reference"]> ∅))).

(** [f"{score:.3f}"]: three decimals, rounded half to even. *)
Definition format_3f (score : Q) : string :=
  let a := Z.abs (Qnum score) * 1000 in
  let b := Z.pos (Qden score) in
  let q := a `div` b in
  let r := a `mod` b in
  let q := if (b <? 2 * r) || ((b =? 2 * r) && Z.odd q) then q + 1 else q in
  let frac := q `mod` 1000 in
  (if Qnum score <? 0 then "-" else "") +:+ pretty (q `div` 1000) +:+ "." +:+
  (if frac <? 10 then "00" else if frac <? 100 then "0" else "") +:+ pretty frac.

(** The [notes] of an auto-generated mapping. *)
Definition mapping_notes (score : Q) (keywords : list string) : string :=
  "Auto-generated via keyword matching (score: " +:+ format_3f score +:+
  ", keywords: " +:+ join ", " (take 3 keywords) +:+ ")".

(** The existence check of the loop:
    [db.query(CSIICCMapping).filter(...).first()]. *)
Definition find_existing_mapping (csi_code_id icc_section_id : Z)
  : DB (option CSIICCMapping.t) :=
  query (λ s, head (filter (λ m, mapping_key m = (csi_code_id, icc_section_id))
                      (visible_mappings s))).

(** The loop of [create_keyword_mappings]; [now] is [datetime.utcnow()]. *)
Fixpoint create_keyword_mappings_loop (csi_code : CSICode.t)
    (relevance_map : gmap string string) (now : Z)
    (matches : list MatchResult.t) (created : Z) : DB Z :=
  match matches with
  | [] => ret created
  | match_ :: matches' =>
      let section := MatchResult.section match_ in
      let confidence := MatchResult.confidence match_ in
      let score := MatchResult.score match_ in
      let keywords := MatchResult.matched_keywords match_ in
      let relevance := default "reference" (relevance_map !! confidence) in
      let! existing :=
        find_existing_mapping (CSICode.id csi_code) (ICCSection.id section) in
      match existing with
      | Some _ =>
          create_keyword_mappings_loop csi_code relevance_map now matches' created
      | None =>
          let mapping :=
            CSIICCMapping.mk None (CSICode.id csi_code) (ICCSection.id section)
              (Some relevance) (Some (mapping_notes score keywords)) (Some now) in
          run! db_add mapping in
          create_keyword_mappings_loop csi_code relevance_map now matches'
            (created + 1)
      end
  end.

(** [create_keyword_mappings]. *)
Definition create_keyword_mappings (csi_code : CSICode.t)
    (matches : list MatchResult.t) (relevance_map : option (gmap string string))
    (now : Z) : DB Z :=
  let relevance_map := default default_relevance_map relevance_map in
  let! created :=
    create_keyword_mappings_loop csi_code relevance_map now matches 0 in
  run! (if 0 <? created then db_commit else ret tt) in
  ret created.

(** The unique constraint, on a list of rows. *)
Definition unique_keys (rows : list CSIICCMapping.t) : Prop :=
  NoDup (mapping_key <$> rows).

(** The (QueryCode, CodeSection) pair of a match. *)
Definition match_key (csi_code : CSICode.t) (m : MatchResult.t) : Z * Z :=
  (CSICode.id csi_code, ICCSection.id (MatchResult.section m)).

(** [crud.create_mapping]: the curator's direct insertion. *)
Definition create_mapping (csi_code_id icc_section_id : Z)
    (relevance notes : option string) : DB unit :=
  run! db_add (CSIICCMapping.mk None csi_code_id icc_section_id relevance notes None) in
  db_commit.

(** ** The matcher ([KeywordMatcher]) *)

(** The query of [KeywordMatcher.initialize]: the sections joined to their
    document, of the requested document code when one is given. *)
Definition corpus_sections (icc_document_code : option string) (db : Session)
  : list ICCSection.t :=
  filter (λ sec,
    Exists (λ d,
      ICCSection.document_id sec = ICCDocument.id d
      ∧ passes (truthy_str icc_document_code) (Some (ICCDocument.code d)))
      (icc_documents (store db)))
    (icc_sections (store db)).

(** The successful results of a call, projected. *)
Definition result_map {A B} (f : A → B) (r : Result A) : Result B :=
  match r with
  | Ok a => Ok (f a)
  | Raise e => Raise e
  end.

Section KeywordMatching.

(** scikit-learn's [TfidfVectorizer] and [cosine_similarity]: a fitted
    vectorizer is a [Vocabulary]; fitting may raise (an empty vocabulary, for
    one), transforming with a fitted vectorizer does not. NumPy's [argsort]. *)
Context {Vocabulary Vector : Type}.
Variable fit : list string → Result Vocabulary.
Variable transform : Vocabulary → string → Vector.
Variable cosine_similarity : Vector → Vector → Q.
Variable argsort : list Q → list nat.

Record KeywordMatcher := mkKeywordMatcher {
  self_vectorizer : option Vocabulary;
  self_icc_sections : list ICCSection.t;
  self_icc_vectors : option (list Vector) }.

(** [KeywordMatcher.__init__]. *)
Definition KeywordMatcher_init : KeywordMatcher :=
  mkKeywordMatcher None [] None.

(** [KeywordMatcher.initialize]. The method updates the matcher in place; its
    callers drop the matcher when it raises, so the updated matcher is the
    result of a successful call. *)
Definition initialize (self : KeywordMatcher) (icc_document_code : option string)
  : DB KeywordMatcher := λ db,
  let rows := corpus_sections icc_document_code db in
  match rows with
  | [] => (db, Raise (ValueError "No ICC sections found in database"))
  | _ =>
      let icc_texts := _create_searchable_text <$> rows in
      match fit icc_texts with
      | Raise e => (db, Raise e)
      | Ok vocabulary =>
          (db, Ok (mkKeywordMatcher (Some vocabulary) rows
                     (Some (transform vocabulary <$> icc_texts))))
      end
  end.

(** The loop of [find_matches] over [top_indices]. *)
Fixpoint find_matches_loop (self : KeywordMatcher) (query_text : string)
    (similarities : list Q) (min_score : Q) (top_indices : list nat)
    (results : list MatchResult.t) : Result (list MatchResult.t) :=
  match top_indices with
  | [] => Ok results
  | idx :: top_indices' =>
      match similarities !! idx with
      | None => Raise IndexError
      | Some score =>
          if Qlt_bool score min_score
          then find_matches_loop self query_text similarities min_score
                 top_indices' results
          else
            match self_icc_sections self !! idx with
            | None => Raise IndexError
            | Some section =>
                let matched_keywords :=
                  _find_matched_keywords query_text
                    (_create_searchable_text section) in
                find_matches_loop self query_text similarities min_score
                  top_indices'
                  (results ++ [MatchResult.mk section score matched_keywords
                                 (_score_to_confidence score)])
            end
      end
  end.

(** [KeywordMatcher.find_matches]. *)
Definition find_matches (self : KeywordMatcher) (csi_code : CSICode.t)
    (top_n : Z) (min_score : Q) : Result (list MatchResult.t) :=
  match self_icc_vectors self with
  | None => Raise (RuntimeError "Matcher not initialized. Call initialize() first.")
  | Some icc_vectors =>
      let query_text := _create_csi_query csi_code in
      match self_vectorizer self with
      | None => Raise (VectorizerError "not fitted")
      | Some vocabulary =>
          let query_vector := transform vocabulary query_text in
          let similarities := cosine_similarity query_vector <$> icc_vectors in
          let top_indices := slice_to top_n (reversed (argsort similarities)) in
          find_matches_loop self query_text similarities min_score top_indices []
      end
  end.

(** ** Search Orchestrator ([search_codes]) *)

(** The relationship [ICCSection.document], loaded through the session. *)
Definition section_document (section : ICCSection.t) : DB (option ICCDocument.t) :=
  query (λ s, head (filter (λ d, ICCDocument.id d = ICCSection.document_id section)
                      (icc_documents (store s)))).

(** The loop of [search_codes] over the matches: the document of a section is
    loaded when it is not yet, and the section is appended. *)
Fixpoint suggested_sections_loop (matches : list MatchResult.t)
    (suggested_sections : list ICCSection.t) : DB (list ICCSection.t) :=
  match matches with
  | [] => ret suggested_sections
  | match_ :: matches' =>
      let section := MatchResult.section match_ in
      let! document := section_document section in
      run! match document with
           | None => section_document section
           | Some _ => ret document
           end in
      suggested_sections_loop matches' (suggested_sections ++ [section])
  end.

(** The [try] block of [search_codes], first half: the matcher is built and
    asked for the matches. *)
Definition search_codes_matches (search_req : SearchRequest.t)
    (csi_code_obj : CSICode.t) : DB (list MatchResult.t) :=
  let matcher := KeywordMatcher_init in
  let! matcher := initialize matcher (SearchRequest.icc_document search_req) in
  lift (find_matches matcher csi_code_obj 10 0.1).

(** The [try] block of [search_codes], whole. *)
Definition search_codes_fallback (search_req : SearchRequest.t)
    (csi_code_obj : CSICode.t) (result : SearchResult.t) : DB SearchResult.t :=
  let! matches := search_codes_matches search_req csi_code_obj in
  let! suggested_sections := suggested_sections_loop matches [] in
  ret (SearchResult.mk (SearchResult.csi_code result) suggested_sections
         (Z.of_nat (length suggested_sections)) (Some "keyword_matching")).

(** [search_codes]. *)
Definition search_codes (search_req : SearchRequest.t) : DB SearchResult.t :=
  let! result :=
    search_csi_to_icc (SearchRequest.csi_code search_req)
      (SearchRequest.state search_req) (SearchRequest.year search_req)
      (SearchRequest.icc_document search_req) in
  match result with
  | None => raise (HTTPException 404 "CSI code not found")
  | Some result =>
      if bool_decide (length (SearchResult.icc_sections result) = 0%nat) then
        let! csi_code_obj := get_csi_code (SearchRequest.csi_code search_req) in
        match csi_code_obj with
        | Some csi_code_obj =>
            try_except
              (search_codes_fallback search_req csi_code_obj result)
              (λ e,
                 ret (SearchResult.mk (SearchResult.csi_code result)
                        (SearchResult.icc_sections result)
                        (SearchResult.total_results result) (Some "no_mappings")))
        | None =>
            ret (SearchResult.mk (SearchResult.csi_code result)
                   (SearchResult.icc_sections result)
                   (SearchResult.total_results result) (Some "no_mappings"))
        end
      else
        ret (SearchResult.mk (SearchResult.csi_code result)
               (SearchResult.icc_sections result)
               (SearchResult.total_results result) (Some "manual_mappings"))
  end.

(** ** Notions used to state the properties of the ranker *)

(** The similarity scores [find_matches] computes for a CSI code, by corpus
    position. *)
Definition similarities (self : KeywordMatcher) (csi_code : CSICode.t) : list Q :=
  match self_vectorizer self, self_icc_vectors self with
  | Some vocabulary, Some icc_vectors =>
      cosine_similarity (transform vocabulary (_create_csi_query csi_code))
        <$> icc_vectors
  | _, _ => []
  end.

(** The result built by the loop of [find_matches] for corpus position [idx]. *)
Definition is_match (self : KeywordMatcher) (query_text : string)
    (similarities : list Q) (min_score : Q) (idx : nat) (r : MatchResult.t) : Prop :=
  similarities !! idx = Some (MatchResult.score r)
  ∧ self_icc_sections self !! idx = Some (MatchResult.section r)
  ∧ (min_score <= MatchResult.score r)%Q
  ∧ MatchResult.matched_keywords r
    = _find_matched_keywords query_text
        (_create_searchable_text (MatchResult.section r))
  ∧ MatchResult.confidence r = _score_to_confidence (MatchResult.score r).

End KeywordMatching.

(** The ranking order of two corpus positions: the first has the greater
    score, or the same score and the greater position. *)
Definition ranks_before (similarities : list Q) (i j : nat) : Prop :=
  ∃ x y, similarities !! i = Some x ∧ similarities !! j = Some y
         ∧ ((y < x)%Q ∨ ((x == y)%Q ∧ (j < i)%nat)).

(** ** Response schema ([schemas.py]) *)

(** [schemas.ICCSection.truncate_description], the validator of the
    [description] of a section in a response. *)
Definition truncate_description (v : option string) : option string :=
  match v with
  | None => None
  | Some v =>
      let max_words := 12%nat in
      let words := split v in
      if bool_decide (length words ≤ max_words)%nat then Some v
      else Some (join " " (take max_words words) +:+ "...")
  end.

(** ** Lookups by primary key ([crud.py]) and the mapping handlers
    ([routers/codes.py]) *)

(** [crud.get_csi_code_by_id]. *)
Definition get_csi_code_by_id (csi_id : Z) : DB (option CSICode.t) :=
  query (λ s, head (filter (λ c, CSICode.id c = csi_id) (csi_codes (store s)))).

(** [crud.get_icc_section]. *)
Definition get_icc_section (section_id : Z) : DB (option ICCSection.t) :=
  query (λ s, head (filter (λ sec, ICCSection.id sec = section_id)
                      (icc_sections (store s)))).

(** [schemas.CSIICCMappingCreate]. *)
Module CSIICCMappingCreate.
Record t := mk {
  relevance : option string;
  notes : option string;
  csi_code_id : Z;
  icc_section_id : Z }.
End CSIICCMappingCreate.

(** The handlers of [routers/codes.py] that read or write mappings, besides
    [search_codes]. *)
Module codes.

(** [get_icc_sections_for_csi]. *)
Definition get_icc_sections_for_csi (code : string) (state : option string)
    (year : option Z) (icc_document : option string) : DB (list ICCSection.t) :=
  let! csi := get_csi_code code in
  match csi with
  | None => raise (HTTPException 404 "CSI code not found")
  | Some _ => get_icc_sections_for_csi_code code state year icc_document
  end.

(** [create_mapping]. *)
Definition create_mapping (mapping : CSIICCMappingCreate.t) : DB unit :=
  let! csi := get_csi_code_by_id (CSIICCMappingCreate.csi_code_id mapping) in
  match csi with
  | None => raise (HTTPException 404 "CSI code not found")
  | Some _ =>
      let! icc_section :=
        get_icc_section (CSIICCMappingCreate.icc_section_id mapping) in
      match icc_section with
      | None => raise (HTTPException 404 "ICC section not found")
      | Some _ =>
          create_mapping (CSIICCMappingCreate.csi_code_id mapping)
            (CSIICCMappingCreate.icc_section_id mapping)
            (CSIICCMappingCreate.relevance mapping)
            (CSIICCMappingCreate.notes mapping)
      end
  end.

End codes.

(** ** Notions used to state the properties of the texts, of the loops and
    of the stored rows *)

(** A word: not empty, without whitespace. *)
Fixpoint no_space (s : string) : bool :=
  match s with
  | EmptyString => true
  | String c s' => negb (isspace c) && no_space s'
  end.

Definition is_word (w : string) : Prop := w ≠ "" ∧ no_space w = true.

(** What [split_from] emits for the word it has read so far. *)
Definition flush_word (word : string) : list string :=
  match word with EmptyString => [] | _ => [word] end.

(** The text of an optional attribute; a missing one has none. *)
Definition text_of (o : option string) : string := default "" o.


(** The result the loop of [find_matches] builds at a corpus position, when
    it builds one. *)
Definition match_at {Vocabulary Vector} (self : @KeywordMatcher Vocabulary Vector)
    (query_text : string) (similarities : list Q) (min_score : Q) (idx : nat)
  : option MatchResult.t :=
  match similarities !! idx, self_icc_sections self !! idx with
  | Some score, Some section =>
      if Qlt_bool score min_score then None
      else Some (MatchResult.mk section score
                   (_find_matched_keywords query_text (_create_searchable_text section))
                   (_score_to_confidence score))
  | _, _ => None
  end.

(** The mapping object the loop of [create_keyword_mappings] builds for a
    match. *)
Definition new_mapping (csi_code : CSICode.t) (relevance_map : gmap string string)
    (now : Z) (match_ : MatchResult.t) : CSIICCMapping.t :=
  CSIICCMapping.mk None (CSICode.id csi_code)
    (ICCSection.id (MatchResult.section match_))
    (Some (default "reference" (relevance_map !! MatchResult.confidence match_)))
    (Some (mapping_notes (MatchResult.score match_)
             (MatchResult.matched_keywords match_)))
    (Some now).



(** ** A small vectorizer, to run the matcher on examples

    Bag-of-words vectors and the Jaccard index stand in for TF-IDF and the
    cosine: fitting raises on a corpus without a word, and identical texts
    get identical scores, as with scikit-learn's. *)

Definition bow_fit (texts : list string) : Result unit :=
  if bool_decide (Forall (λ t, split (lower t) = []) texts)
  then Raise (VectorizerError "empty vocabulary")
  else Ok tt.

Definition bow_transform (_ : unit) (text : string) : gset string :=
  list_to_set (split (lower text)).

Definition jaccard (q v : gset string) : Q :=
  if bool_decide (q ∪ v = ∅) then 0
  else Z.of_nat (size (q ∩ v)) # Pos.of_nat (size (q ∪ v)).

(** Two editions of a plumbing code; section 502 has the same number and
    title in both, so the same searchable text. One CSI code matches the
    water heater sections, the other matches nothing; neither has a curated
    mapping. *)
Definition ipc_2021 : ICCDocument.t :=
  ICCDocument.mk 1 "IPC" 2021 "International Plumbing Code" None "https://codes.iccsafe.org".
Definition ipc_2024 : ICCDocument.t :=
  ICCDocument.mk 2 "IPC" 2024 "International Plumbing Code" None "https://codes.iccsafe.org".
Definition sec_501 : ICCSection.t :=
  ICCSection.mk 1 1 (Some "501") (Some "Water Heaters") (Some 5) "u501"
    (Some "Requirements for water heater installation").
Definition sec_502 : ICCSection.t :=
  ICCSection.mk 2 1 (Some "502") (Some "Water Heaters") None "u502" None.
Definition sec_502_2024 : ICCSection.t :=
  ICCSection.mk 3 2 (Some "502") (Some "Water Heaters") None "u502b" None.
Definition sec_701 : ICCSection.t :=
  ICCSection.mk 4 1 (Some "701") (Some "Sanitary Drainage") (Some 7) "u701" None.
Definition csi_22_40 : CSICode.t :=
  CSICode.mk 7 (Some "22 40 00") 22 (Some "Water Heaters") None.
Definition csi_03_30 : CSICode.t :=
  CSICode.mk 8 (Some "03 30 00") 3 (Some "Cast-in-Place Concrete") None.
Definition sample_db : Database :=
  mkDatabase [csi_22_40; csi_03_30] [ipc_2021; ipc_2024]
    [sec_501; sec_502; sec_502_2024; sec_701] [].
Definition sample_session : Session := mkSession sample_db [] false [].

(** The same database with one curated mapping, of 22 40 00 to section 501. *)
Definition curated_session : Session :=
  mkSession
    (mkDatabase (csi_codes sample_db) (icc_documents sample_db)
       (icc_sections sample_db)
       [CSIICCMapping.mk (Some 1) 7 1 (Some "primary") None (Some 1700000000)])
    [] false [].

(** The matcher [initialize] builds on the sample database. *)
Definition sample_matcher : @KeywordMatcher unit (gset string) :=
  match (initialize bow_fit bow_transform KeywordMatcher_init (Some "IPC")
           sample_session).2 with
  | Ok matcher => matcher
  | Raise _ => KeywordMatcher_init
  end.

(** The matches of the sample matcher for "Water Heaters". *)
Definition sample_matches : list MatchResult.t :=
  match find_matches bow_transform jaccard insertion_argsort sample_matcher
          csi_22_40 10 0.1 with
  | Ok matches => matches
  | Raise _ => []
  end.

(** ** The specification's wording, for comparison with the code *)

(** Searchable text in the order the specification gives: number, title
    twice, "chapter N", then the description. *)
Definition spec_searchable_text (section : ICCSection.t) : string :=
  join " "
    (option_list (truthy_str (ICCSection.section_number section))
     ++ option_list (truthy_str (ICCSection.title section))
     ++ option_list (truthy_str (ICCSection.title section))
     ++ option_list ((λ n, "chapter " +:+ pretty n) <$> truthy_int (ICCSection.chapter section))
     ++ option_list (truthy_str (ICCSection.description section))).

(** The provenance tag as the specification gives it, from the number of
    curated sections and of fallback matches. *)
Definition spec_source_tag (curated : list ICCSection.t)
    (fallback : list MatchResult.t) : string :=
  match curated, fallback with
  | _ :: _, _ => "manual_mappings"
  | [], _ :: _ => "keyword_matching"
  | [], [] => "no_mappings"
  end.

(** * Properties *)

#[local] Set Warnings "-clear-no-such-hyp".

(** ** Comparisons of scores *)

Lemma Qlt_bool_true x y : Qlt_bool x y = true ↔ (x < y)%Q.
Proof.
  unfold Qlt_bool. rewrite negb_true_iff, <- not_true_iff_false, Qle_bool_iff.
  split; [apply Qnot_le_lt | apply Qlt_not_le].
Qed.

Lemma Qlt_bool_false x y : Qlt_bool x y = false ↔ (y <= x)%Q.
Proof. unfold Qlt_bool. rewrite negb_false_iff. apply Qle_bool_iff. Qed.

Lemma Qle_bool_false x y : Qle_bool x y = false ↔ (y < x)%Q.
Proof.
  rewrite <- not_true_iff_false, Qle_bool_iff.
  split; [apply Qnot_le_lt | apply Qlt_not_le].
Qed.

(** ** Confidence Classifier *)

(** C5. The classifier is a total function of the score with half-open
    thresholds: at least 0.5 is high, from 0.3 up to 0.5 excluded is medium,
    from 0.15 up to 0.3 excluded is low, below 0.15 is very_low; and the five
    sample scores of the specification get the tiers it lists. *)
Theorem score_to_confidence_tiers (s : Q) :
  ((0.5 <= s)%Q → _score_to_confidence s = "high")
  ∧ ((0.3 <= s)%Q ∧ (s < 0.5)%Q → _score_to_confidence s = "medium")
  ∧ ((0.15 <= s)%Q ∧ (s < 0.3)%Q → _score_to_confidence s = "low")
  ∧ ((s < 0.15)%Q → _score_to_confidence s = "very_low")
  ∧ _score_to_confidence 0.5 = "high"
  ∧ _score_to_confidence 0.49999 = "medium"
  ∧ _score_to_confidence 0.3 = "medium"
  ∧ _score_to_confidence 0.15 = "low"
  ∧ _score_to_confidence 0.0 = "very_low".
Proof.
  unfold _score_to_confidence.
  repeat split; try reflexivity.
  - intros H. apply Qle_bool_iff in H. by rewrite H.
  - intros [H1 H2]. apply Qle_bool_false in H2. apply Qle_bool_iff in H1.
    by rewrite H2, H1.
  - intros [H1 H2].
    assert (Qle_bool 0.5 s = false) as -> by (apply Qle_bool_false; lra).
    apply Qle_bool_false in H2. apply Qle_bool_iff in H1. by rewrite H2, H1.
  - intros H.
    assert (Qle_bool 0.5 s = false) as -> by (apply Qle_bool_false; lra).
    assert (Qle_bool 0.3 s = false) as -> by (apply Qle_bool_false; lra).
    apply Qle_bool_false in H. by rewrite H.
Qed.

Lemma score_to_confidence_tiers_witness :
  _score_to_confidence 0.42 = "medium" ∧ _score_to_confidence 0.2 = "low"
  ∧ _score_to_confidence 0.7 = "high" ∧ _score_to_confidence 0.1 = "very_low".
Proof.
  split; [|split; [|split]].
  - apply (proj1 (proj2 (score_to_confidence_tiers 0.42))).
    split; [discriminate | reflexivity].
  - apply (proj1 (proj2 (proj2 (score_to_confidence_tiers 0.2)))).
    split; [discriminate | reflexivity].
  - apply (proj1 (score_to_confidence_tiers 0.7)). discriminate.
  - apply (proj1 (proj2 (proj2 (proj2 (score_to_confidence_tiers 0.1))))).
    reflexivity.
Defined.

(** ** Corpus Builder *)

(** C2, as the specification words it, fails: with a chapter and a
    description both present, the code puts the description before
    "chapter N", the specification after it. *)
Lemma searchable_text_order_counterexample :
  _create_searchable_text sec_501
  = "501 Water Heaters Water Heaters Requirements for water heater installation chapter 5"
  ∧ spec_searchable_text sec_501
    = "501 Water Heaters Water Heaters chapter 5 Requirements for water heater installation"
  ∧ _create_searchable_text sec_501 ≠ spec_searchable_text sec_501.
Proof. repeat split; [reflexivity .. | discriminate]. Qed.

(** The round trip of the specification: title and description only. *)
Example searchable_text_water_heaters :
  _create_searchable_text
    (ICCSection.mk 1 1 None (Some "Water Heaters") None "u"
       (Some "Requirements for water heater installation"))
  = "Water Heaters Water Heaters Requirements for water heater installation".
Proof. reflexivity. Qed.

(** C2, amended. The searchable text of a section is the space-joined
    concatenation, in this order, of the section number (once), the title
    (twice), the description, then the phrase "chapter N"; a field that is
    absent (None, the empty string, chapter 0) is omitted without placeholder.
    With every field present the text is
    "number title title description chapter N". *)
Theorem searchable_text_order (section : ICCSection.t) :
  _create_searchable_text section
  = join " "
      (option_list (truthy_str (ICCSection.section_number section))
       ++ option_list (truthy_str (ICCSection.title section))
       ++ option_list (truthy_str (ICCSection.title section))
       ++ option_list (truthy_str (ICCSection.description section))
       ++ option_list ((λ n, "chapter " +:+ pretty n)
                         <$> truthy_int (ICCSection.chapter section)))
  ∧ (∀ number title description chapter,
       ICCSection.section_number section = Some number → number ≠ "" →
       ICCSection.title section = Some title → title ≠ "" →
       ICCSection.description section = Some description → description ≠ "" →
       ICCSection.chapter section = Some chapter → chapter ≠ 0 →
       _create_searchable_text section
       = number +:+ " " +:+ title +:+ " " +:+ title +:+ " " +:+ description
         +:+ " chapter " +:+ pretty chapter).
Proof.
  split.
  - unfold _create_searchable_text.
    destruct (truthy_str (ICCSection.section_number section)),
      (truthy_str (ICCSection.title section)),
      (truthy_str (ICCSection.description section)),
      (truthy_int (ICCSection.chapter section)); reflexivity.
  - intros number title description chapter Hn ? Ht ? Hd ? Hc ?.
    unfold _create_searchable_text. rewrite Hn, Ht, Hd, Hc.
    destruct number, title, description, chapter; done.
Qed.

Lemma searchable_text_order_witness :
  _create_searchable_text sec_501
  = "501" +:+ " " +:+ "Water Heaters" +:+ " " +:+ "Water Heaters" +:+ " "
    +:+ "Requirements for water heater installation" +:+ " chapter " +:+ pretty 5.
Proof.
  by apply (proj2 (searchable_text_order sec_501)
              "501" "Water Heaters" "Requirements for water heater installation" 5).
Defined.

(** ** The stable sort *)

Section SortStable.
Context {A : Type} (lte : A → A → bool).

Lemma insert_stable_Permutation x l : insert_stable lte x l ≡ₚ x :: l.
Proof.
  induction l as [|y l IH]; simpl; [done|].
  destruct (lte x y); [done|]. rewrite IH. apply Permutation_swap.
Qed.

Lemma sort_stable_Permutation l : sort_stable lte l ≡ₚ l.
Proof.
  induction l as [|x l IH]; simpl; [done|].
  fold (sort_stable lte l). by rewrite insert_stable_Permutation, IH.
Qed.

Lemma sort_stable_elem_of x l : x ∈ sort_stable lte l ↔ x ∈ l.
Proof. by rewrite sort_stable_Permutation. Qed.

Lemma sort_stable_length l : length (sort_stable lte l) = length l.
Proof. by rewrite sort_stable_Permutation. Qed.

(** Sortedness with stability. [T] is the order of the input ("earlier than"),
    [R] the order of the output: [x] goes before [y] when it is not greater
    and came earlier, and stays behind [y] when it is strictly greater. *)
Context (T R : relation A).
Hypothesis before : ∀ x y, lte x y = true → T x y → R x y.
Hypothesis behind : ∀ x y, lte x y = false → R y x.
Hypothesis R_trans : Transitive R.

Lemma insert_stable_sorted x l :
  Forall (T x) l → StronglySorted R l → StronglySorted R (insert_stable lte x l).
Proof.
  induction l as [|y l IH]; simpl; intros HT HS.
  - repeat constructor.
  - apply Forall_cons in HT as [HTy HT]. apply StronglySorted_cons in HS as [Hy HS].
    destruct (lte x y) eqn:E.
    + apply StronglySorted_cons. split; [|by apply StronglySorted_cons].
      constructor; [by apply before|].
      eapply Forall_impl; [exact Hy|]. intros z Hz. etrans; [by apply before|done].
    + apply StronglySorted_cons. split; [|by apply IH].
      rewrite insert_stable_Permutation. constructor; [by apply behind|done].
Qed.

Lemma sort_stable_sorted l :
  StronglySorted T l → StronglySorted R (sort_stable lte l).
Proof.
  induction l as [|x l IH]; simpl; intros HS; [constructor|].
  apply StronglySorted_cons in HS as [Hx HS]. fold (sort_stable lte l).
  apply insert_stable_sorted; [|by apply IH].
  by rewrite sort_stable_Permutation.
Qed.

End SortStable.

Lemma StronglySorted_True {A} (l : list A) : StronglySorted (λ _ _, True) l.
Proof. induction l; constructor; [done|]. by apply Forall_forall. Qed.

Lemma StronglySorted_reversed {A} (R : relation A) l :
  StronglySorted R l → StronglySorted (flip R) (reversed l).
Proof.
  unfold reversed.
  induction 1 as [|x l HS IH Hx]; [constructor|].
  rewrite reverse_cons. apply StronglySorted_app. split_and!.
  - intros y z Hy Hz. apply list_elem_of_singleton in Hz as ->.
    rewrite elem_of_reverse in Hy. rewrite Forall_forall in Hx.
    unfold flip. by apply Hx.
  - done.
  - repeat constructor.
Qed.

Lemma StronglySorted_sublist {A} (R : relation A) l1 l2 :
  l1 `sublist_of` l2 → StronglySorted R l2 → StronglySorted R l1.
Proof.
  induction 1 as [|x l1 l2 Hsub IH|x l1 l2 Hsub IH]; intros HS.
  - constructor.
  - apply StronglySorted_cons in HS as [Hx HS].
    apply StronglySorted_cons. split; [|auto].
    rewrite Forall_forall in Hx |- *. intros y Hy. apply Hx.
    by eapply sublist_subseteq.
  - apply StronglySorted_cons in HS as [_ HS]. auto.
Qed.

Lemma StronglySorted_take {A} (R : relation A) n l :
  StronglySorted R l → StronglySorted R (take n l).
Proof. apply StronglySorted_sublist, sublist_take. Qed.

Lemma StronglySorted_Forall {A} (R : relation A) (P : A → Prop) l :
  StronglySorted R l → Forall P l →
  StronglySorted (λ a b, P a ∧ P b ∧ R a b) l.
Proof.
  induction 1 as [|x l HS IH Hx]; intros HP; [constructor|].
  apply Forall_cons in HP as [HPx HP].
  constructor; [auto|].
  rewrite Forall_forall in Hx, HP |- *. auto.
Qed.

(** An element of a sorted list that a cut leaves out: the cut is full, and
    everything in it comes before the element. *)
Lemma StronglySorted_take_bound {A} (R : relation A) n l x :
  StronglySorted R l → x ∈ l → x ∉ take n l →
  length (take n l) = n ∧ Forall (λ y, R y x) (take n l).
Proof.
  intros Hl. revert n. induction Hl as [|y l Hl IH Hy]; intros n Hx Hn.
  - by apply elem_of_nil in Hx.
  - destruct n as [|n]; [done|]. simpl in *.
    apply not_elem_of_cons in Hn as [Hxy Hn].
    apply elem_of_cons in Hx as [?|Hx]; [done|].
    destruct (IH n Hx Hn) as [Hlen Hall]. split; [by rewrite Hlen|].
    constructor; [|done]. by eapply (proj1 (Forall_forall _ _) Hy).
Qed.

Lemma slice_to_take {A} (n : Z) (l : list A) : ∃ k, slice_to n l = take k l.
Proof. unfold slice_to. destruct (0 <=? n); eauto. Qed.

Lemma slice_to_length {A} (n : Z) (l : list A) :
  0 ≤ n → Z.of_nat (length (slice_to n l)) ≤ n.
Proof.
  intros Hn. unfold slice_to. destruct (Z.leb_spec 0 n); [|lia].
  rewrite length_take. lia.
Qed.

(** ** Match Explainer *)

Lemma sorted_len_reverse_sorted xs :
  StronglySorted (λ a b, String.length b ≤ String.length a)%nat
    (sorted_len_reverse xs).
Proof.
  apply (sort_stable_sorted _ (λ _ _, True)).
  - intros x y E _. by apply Nat.leb_le.
  - intros x y E. apply Nat.leb_gt in E. lia.
  - intros x y z. lia.
  - apply StronglySorted_True.
Qed.

Example matched_keywords_example :
  _find_matched_keywords "22 40 00 Plumbing Fixtures and the Water"
                         "501.1 Water Heaters Water Heaters for plumbing"
  = ["plumbing"; "water"].
Proof. vm_compute. reflexivity. Qed.

(** C9. The explainer returns at most 5 terms; each of them occurs in both
    texts once lowercased and split on whitespace; none is a stop word; and
    the terms are in non-increasing order of length. *)
Theorem find_matched_keywords_spec (query text : string) :
  (length (_find_matched_keywords query text) ≤ 5)%nat
  ∧ (∀ term, term ∈ _find_matched_keywords query text →
       term ∈ split (lower query) ∧ term ∈ split (lower text)
       ∧ term ∉ stop_words)
  ∧ StronglySorted (λ a b, String.length b ≤ String.length a)%nat
      (_find_matched_keywords query text).
Proof.
  unfold _find_matched_keywords. split_and!.
  - rewrite length_take. lia.
  - intros term Hin. apply elem_of_take in Hin as (i & Hin & _).
    apply list_elem_of_lookup_2 in Hin.
    apply sort_stable_elem_of, elem_of_elements in Hin.
    apply elem_of_intersection in Hin as [Hq Ht].
    apply elem_of_difference in Hq as [Hq Hstop].
    apply elem_of_difference in Ht as [Ht _].
    by rewrite !elem_of_list_to_set in Hq, Ht.
  - apply StronglySorted_take, sorted_len_reverse_sorted.
Qed.

(** ** Similarity Ranker *)

Lemma StronglySorted_weaken {A} (R R' : relation A) l :
  (∀ x y, R x y → R' x y) → StronglySorted R l → StronglySorted R' l.
Proof.
  intros HR. induction 1 as [|x l HS IH Hx]; constructor; [done|].
  eapply Forall_impl; [done|]. auto.
Qed.

Lemma enumerate_sorted {A} (a : list A) (k : nat) :
  StronglySorted (λ p q : nat * A, (p.1 < q.1)%nat) (imap (λ i x, (k + i, x)%nat) a).
Proof.
  revert k. induction a as [|x a IH]; intros k; [constructor|].
  rewrite imap_cons. constructor.
  - specialize (IH (S k)). erewrite imap_ext; [exact IH|].
    intros i y _. simpl. f_equal. lia.
  - apply Forall_forall. intros p Hp.
    apply elem_of_lookup_imap_1 in Hp as (i & y & -> & _). simpl. lia.
Qed.

Lemma enumerate_indices {A} (a : list A) (k : nat) :
  (imap (λ i x, (k + i, x)%nat) a).*1 = seq k (length a).
Proof.
  revert k. induction a as [|x a IH]; intros k; [done|].
  rewrite imap_cons. simpl. rewrite Nat.add_0_r. f_equal.
  rewrite <- (IH (S k)). f_equal. apply imap_ext. intros i y _. simpl. f_equal. lia.
Qed.

(** The insertion argsort is stable, and meets NumPy's contract. *)
Lemma insertion_argsort_stable (a : list Q) : argsort_stable insertion_argsort a.
Proof.
  unfold argsort_stable, insertion_argsort.
  set (pairs := imap (λ i x, (i, x)) a).
  set (lte := λ x y : nat * Q, Qle_bool x.2 y.2).
  set (asc := λ p q : nat * Q, (p.2 < q.2)%Q ∨ ((p.2 == q.2)%Q ∧ (p.1 < q.1)%nat)).
  assert (StronglySorted asc (sort_stable lte pairs)) as Hasc.
  { apply (sort_stable_sorted lte (λ p q, (p.1 < q.1)%nat)).
    - intros p q E Hpq. apply Qle_bool_iff in E. unfold asc.
      destruct (Qlt_le_dec p.2 q.2); [by left|right]. split; [|done].
      by apply Qle_antisym.
    - intros p q E. apply Qle_bool_false in E. by left.
    - intros p q r [H1|[H1 H1']] [H2|[H2 H2']]; unfold asc.
      + left. lra.
      + left. lra.
      + left. lra.
      + right. split; [lra | lia].
    - by apply (enumerate_sorted a 0). }
  assert (Forall (λ p, a !! p.1 = Some p.2) (sort_stable lte pairs)) as Hin.
  { apply Forall_forall. intros p Hp. apply sort_stable_elem_of in Hp.
    by apply elem_of_lookup_imap_1 in Hp as (i & y & -> & ?). }
  pose proof (StronglySorted_Forall _ _ _ Hasc Hin) as HS.
  eapply StronglySorted_fmap; [|exact HS].
  intros p q (Hp & Hq & Hpq). by exists p.2, q.2.
Qed.

Lemma insertion_argsort_contract : argsort_contract insertion_argsort.
Proof.
  intros a. split.
  - unfold insertion_argsort. rewrite sort_stable_Permutation.
    by rewrite <- (enumerate_indices a 0).
  - eapply StronglySorted_weaken; [|apply insertion_argsort_stable].
    intros i j (x & y & Hx & Hy & Hxy). exists x, y. split_and!; [done..|].
    destruct Hxy as [?|[? _]]; lra.
Qed.

Section Ranker.
Context {Vocabulary Vector : Type}.
Context (fit : list string → Result Vocabulary).
Context (transform : Vocabulary → string → Vector).
Context (cosine_similarity : Vector → Vector → Q).
Context (argsort : list Q → list nat).
Implicit Types (self m : @KeywordMatcher Vocabulary Vector).

Lemma argsort_elem_of (a : list Q) i :
  argsort_contract argsort → i ∈ argsort a ↔ (i < length a)%nat.
Proof.
  intros Hc. destruct (Hc a) as [Hp _]. rewrite Hp, list_elem_of_In, in_seq. lia.
Qed.

Lemma argsort_length (a : list Q) :
  argsort_contract argsort → length (argsort a) = length a.
Proof. intros Hc. destruct (Hc a) as [Hp _]. rewrite Hp. apply length_seq. Qed.

(** The top indices: by non-increasing score, and by the ranking order when
    the argsort is stable. *)
Lemma top_indices_descending (a : list Q) top_n :
  argsort_contract argsort →
  StronglySorted (flip (ascending a)) (slice_to top_n (reversed (argsort a))).
Proof.
  intros Hc. destruct (slice_to_take top_n (reversed (argsort a))) as [k ->].
  apply StronglySorted_take, StronglySorted_reversed. by destruct (Hc a).
Qed.

Lemma top_indices_ranked (a : list Q) top_n :
  argsort_stable argsort a →
  StronglySorted (ranks_before a) (slice_to top_n (reversed (argsort a))).
Proof.
  intros Hs. destruct (slice_to_take top_n (reversed (argsort a))) as [k ->].
  apply StronglySorted_take.
  eapply StronglySorted_weaken; [|by apply StronglySorted_reversed].
  intros i j (x & y & Hx & Hy & Hxy). exists y, x. split_and!; [done..|].
  destruct Hxy as [?|[? ?]]; [by left|right]. split; [by symmetry|done].
Qed.

Lemma find_matches_loop_spec self query_text similarities min_score top_indices :
  Forall (λ idx, is_Some (similarities !! idx)
                 ∧ is_Some (self_icc_sections self !! idx)) top_indices →
  ∀ results, ∃ kept out,
    find_matches_loop self query_text similarities min_score top_indices results
    = Ok (results ++ out)
    ∧ kept `sublist_of` top_indices
    ∧ Forall2 (is_match self query_text similarities min_score) kept out
    ∧ (∀ idx x, idx ∈ top_indices → similarities !! idx = Some x →
         (min_score <= x)%Q → idx ∈ kept).
Proof.
  induction 1 as [|idx top_indices [[score Hs] [section Hsec]] _ IH];
    intros results; simpl.
  - exists [], []. rewrite app_nil_r. split_and!; [done..|].
    intros idx x Hin. by apply elem_of_nil in Hin.
  - rewrite Hs. destruct (Qlt_bool score min_score) eqn:E.
    + destruct (IH results) as (kept & out & -> & Hsub & Hall & Hkept).
      exists kept, out. split_and!; [done|by apply sublist_cons|done|].
      intros idx' x Hin Hx Hle. apply elem_of_cons in Hin as [->|Hin]; [|eauto].
      apply Qlt_bool_true in E. rewrite Hs in Hx. injection Hx as ->. lra.
    + rewrite Hsec.
      edestruct IH as (kept & out & -> & Hsub & Hall & Hkept).
      eexists (idx :: kept), (_ :: out). split_and!.
      * by rewrite <- app_assoc.
      * by apply sublist_skip.
      * constructor; [|done]. apply Qlt_bool_false in E. by split_and!.
      * intros idx' x Hin Hx Hle. apply elem_of_cons in Hin as [->|Hin].
        -- left.
        -- right. eauto.
Qed.

Lemma initialize_inv self code db m :
  (initialize fit transform self code db).2 = Ok m →
  ∃ vocabulary,
    self_vectorizer m = Some vocabulary
    ∧ self_icc_sections m ≠ []
    ∧ fit (_create_searchable_text <$> self_icc_sections m) = Ok vocabulary
    ∧ self_icc_vectors m
      = Some (transform vocabulary <$> (_create_searchable_text <$> self_icc_sections m)).
Proof.
  unfold initialize.
  destruct (corpus_sections _ _) as [|sec rows] eqn:Hrows; [done|].
  destruct (fit _) as [vocabulary|e] eqn:Hfit; [|done].
  simpl. intros [= <-]. exists vocabulary. by split_and!.
Qed.

Lemma find_matches_spec self code db m csi_code top_n min_score :
  argsort_contract argsort →
  (initialize fit transform self code db).2 = Ok m →
  let sims := similarities transform cosine_similarity m csi_code in
  let top_indices := slice_to top_n (reversed (argsort sims)) in
  ∃ kept results,
    find_matches transform cosine_similarity argsort m csi_code top_n min_score
    = Ok results
    ∧ kept `sublist_of` top_indices
    ∧ Forall2 (is_match m (_create_csi_query csi_code) sims min_score) kept results
    ∧ (∀ idx x, idx ∈ top_indices → sims !! idx = Some x →
         (min_score <= x)%Q → idx ∈ kept).
Proof.
  intros Hc (vocabulary & Hvoc & _ & _ & Hvec)%initialize_inv sims top_indices.
  unfold find_matches. subst sims top_indices. unfold similarities.
  rewrite Hvec, Hvoc.
  set (sims := cosine_similarity _ <$> _).
  destruct (find_matches_loop_spec m (_create_csi_query csi_code) sims min_score
              (slice_to top_n (reversed (argsort sims)))) with (results := @nil MatchResult.t)
    as (kept & out & Heq & ?).
  - apply Forall_forall. intros idx Hidx.
    destruct (slice_to_take top_n (reversed (argsort sims))) as [k Hk].
    rewrite Hk in Hidx. apply (sublist_subseteq _ _ (sublist_take _ _)) in Hidx.
    unfold reversed in Hidx. rewrite elem_of_reverse, argsort_elem_of in Hidx by done.
    split; apply lookup_lt_is_Some; [done|].
    subst sims. by rewrite !length_fmap in Hidx.
  - exists kept, out. by rewrite Heq.
Qed.

(** C4. With an argsort that meets NumPy's contract, for an initialized
    matcher, every QueryCode, every [top_n] and every [min_score],
    [find_matches] returns (it does not raise): at most [top_n] results,
    [top_n] being a count ([0 <= top_n]); each with a score of at least
    [min_score]; in non-increasing order of score; and the empty list when
    no candidate reaches [min_score]. The bound is inclusive: a candidate
    among those the cut to [top_n] retains, whose score is at least
    [min_score] (equal included), is returned; so every such candidate of
    the corpus is returned when [top_n] covers the corpus, and, for any
    count [top_n], such a candidate is returned unless [top_n] results are,
    each with a score at least as high. *)
Theorem find_matches_bounds self code db m csi_code top_n min_score :
  argsort_contract argsort →
  (initialize fit transform self code db).2 = Ok m →
  let sims := similarities transform cosine_similarity m csi_code in
  ∃ results,
    find_matches transform cosine_similarity argsort m csi_code top_n min_score
    = Ok results
    ∧ (0 ≤ top_n → Z.of_nat (length results) ≤ top_n)
    ∧ Forall (λ r, (min_score <= MatchResult.score r)%Q) results
    ∧ StronglySorted
        (λ a b, (MatchResult.score b <= MatchResult.score a)%Q) results
    ∧ (Forall (λ x, (x < min_score)%Q) sims → results = [])
    ∧ (∀ idx x, idx ∈ slice_to top_n (reversed (argsort sims)) →
         sims !! idx = Some x → (min_score <= x)%Q →
         ∃ r, r ∈ results ∧ MatchResult.score r = x
              ∧ self_icc_sections m !! idx = Some (MatchResult.section r))
    ∧ (∀ idx x, Z.of_nat (length sims) ≤ top_n →
         sims !! idx = Some x → (min_score <= x)%Q →
         ∃ r, r ∈ results ∧ MatchResult.score r = x
              ∧ self_icc_sections m !! idx = Some (MatchResult.section r))
    ∧ (∀ idx x, 0 ≤ top_n → sims !! idx = Some x → (min_score <= x)%Q →
         (∃ r, r ∈ results ∧ MatchResult.score r = x
               ∧ self_icc_sections m !! idx = Some (MatchResult.section r))
         ∨ (Z.of_nat (length results) = top_n
            ∧ Forall (λ r, (x <= MatchResult.score r)%Q) results)).
Proof.
  intros Hc Hinit sims.
  destruct (find_matches_spec self code db m csi_code top_n min_score Hc Hinit)
    as (kept & results & Heq & Hsub & Hall & Hkept).
  fold sims in Hsub, Hall, Hkept.
  assert (∀ idx x, idx ∈ slice_to top_n (reversed (argsort sims)) →
            sims !! idx = Some x → (min_score <= x)%Q →
            ∃ r, r ∈ results ∧ MatchResult.score r = x
                 ∧ self_icc_sections m !! idx = Some (MatchResult.section r))
    as Hreturned.
  { intros idx x Hidx Hx Hle.
    assert (idx ∈ kept) as Hin by (by apply (Hkept idx x)).
    apply list_elem_of_lookup_1 in Hin as [i Hi].
    destruct (Forall2_lookup_l _ _ _ _ _ Hall Hi) as (r & Hr & Hm & Hsec & _).
    exists r. split_and!; [by eapply list_elem_of_lookup_2| |done].
    rewrite Hx in Hm. by injection Hm. }
  exists results. split_and!; [done|..].
  - intros Htop. rewrite <- (Forall2_length _ _ _ Hall).
    apply sublist_length in Hsub.
    pose proof (slice_to_length top_n (reversed (argsort sims)) Htop).
    lia.
  - apply Forall2_Forall_r with (1 := Hall), Forall_forall.
    by intros idx _ r (_ & _ & ? & _).
  - assert (StronglySorted (flip (ascending sims)) kept) as HS.
    { eapply StronglySorted_sublist; [done|]. by apply top_indices_descending. }
    clear Hsub Hkept Heq Hreturned. revert results Hall.
    induction HS as [|idx kept HS IH Hidx]; intros results Hall.
    + apply Forall2_nil_inv_l in Hall as ->. constructor.
    + apply Forall2_cons_inv_l in Hall as (r & results' & Hr & Hall & ->).
      constructor; [by apply IH|].
      apply Forall2_Forall_r with (1 := Hall).
      rewrite Forall_forall in Hidx |- *. intros idx' Hin r' Hr'.
      destruct (Hidx _ Hin) as (x & y & Hx & Hy & Hxy).
      destruct Hr as (Hrs & _), Hr' as (Hrs' & _).
      rewrite Hrs' in Hx. rewrite Hrs in Hy. injection Hx as <-. by injection Hy as <-.
  - intros Hlow. destruct Hall as [|idx r kept results (Hr & _ & Hle & _) _]; [done|].
    rewrite Forall_forall in Hlow.
    apply list_elem_of_lookup_2, Hlow in Hr. lra.
  - exact Hreturned.
  - intros idx x Hlen Hx Hle. apply (Hreturned idx x); [|done..].
    unfold slice_to. destruct (Z.leb_spec 0 top_n); [|lia].
    rewrite take_ge.
    + unfold reversed. rewrite elem_of_reverse, argsort_elem_of by done.
      by apply lookup_lt_Some in Hx.
    + unfold reversed. rewrite length_reverse, argsort_length by done. lia.
  - intros idx x Htop Hx Hle.
    set (ranked := reversed (argsort sims)) in *.
    assert (slice_to top_n ranked = take (Z.to_nat top_n) ranked) as Hslice.
    { unfold slice_to. by rewrite (proj2 (Z.leb_le _ _) Htop). }
    rewrite Hslice in Hsub, Hkept, Hreturned.
    destruct (decide (idx ∈ take (Z.to_nat top_n) ranked)) as [Hin|Hout];
      [left; by apply (Hreturned idx x)|right].
    assert (StronglySorted (flip (ascending sims)) ranked) as Hranked.
    { apply StronglySorted_reversed. by destruct (Hc sims). }
    assert (idx ∈ ranked) as Hidx.
    { unfold ranked, reversed. rewrite elem_of_reverse, argsort_elem_of by done.
      by apply lookup_lt_Some in Hx. }
    destruct (StronglySorted_take_bound _ (Z.to_nat top_n) _ idx Hranked Hidx Hout)
      as [Hfull Hbefore].
    assert (∀ idx', idx' ∈ take (Z.to_nat top_n) ranked →
              ∃ y, sims !! idx' = Some y ∧ (x <= y)%Q) as Hhigher.
    { intros idx' Hin'.
      destruct (proj1 (Forall_forall _ _) Hbefore idx' Hin')
        as (a & b & Ha & Hb & Hab).
      rewrite Hx in Ha. injection Ha as <-. by exists b. }
    split.
    + assert (NoDup (take (Z.to_nat top_n) ranked)) as Hnd.
      { eapply sublist_NoDup; [|apply sublist_take].
        destruct (Hc sims) as [Hp _].
        unfold ranked, reversed. rewrite reverse_Permutation, Hp. apply NoDup_seq. }
      assert (length (take (Z.to_nat top_n) ranked) ≤ length kept)%nat as Hge.
      { apply submseteq_length, NoDup_submseteq; [done|].
        intros idx' Hin'. destruct (Hhigher idx' Hin') as (y & Hy & Hxy).
        apply (Hkept idx' y); [done..|lra]. }
      apply sublist_length in Hsub.
      rewrite <- (Forall2_length _ _ _ Hall). lia.
    + apply Forall2_Forall_r with (1 := Hall), Forall_forall.
      intros idx' Hin' r (Hscore & _).
      destruct (Hhigher idx') as (y & Hy & Hxy);
        [by eapply elem_of_sublist|].
      rewrite Hy in Hscore. by injection Hscore as <-.
Qed.

(** C3, amended. With an argsort that meets NumPy's contract, the results
    follow the reversed argsort: two corpus members appear in the reverse of
    the order the argsort lists them. Where the argsort is stable, a position
    with a greater score comes first and, of two positions with equal scores,
    the later one in the corpus comes first: ties appear in reverse corpus
    order. *)
Theorem find_matches_tie_order self code db m csi_code top_n min_score :
  argsort_contract argsort →
  (initialize fit transform self code db).2 = Ok m →
  let sims := similarities transform cosine_similarity m csi_code in
  ∃ results idxs,
    find_matches transform cosine_similarity argsort m csi_code top_n min_score
    = Ok results
    ∧ Forall2 (λ idx r,
         self_icc_sections m !! idx = Some (MatchResult.section r)
         ∧ sims !! idx = Some (MatchResult.score r))
        idxs results
    ∧ idxs `sublist_of` reversed (argsort sims)
    ∧ (argsort_stable argsort sims → StronglySorted (ranks_before sims) idxs).
Proof.
  intros Hc Hinit sims.
  destruct (find_matches_spec self code db m csi_code top_n min_score Hc Hinit)
    as (kept & results & Heq & Hsub & Hall & _).
  fold sims in Hsub, Hall.
  exists results, kept. split_and!; [done|..].
  - eapply Forall2_impl; [done|]. by intros idx r (? & ? & _).
  - etrans; [done|].
    destruct (slice_to_take top_n (reversed (argsort sims))) as [k ->].
    apply sublist_take.
  - intros Hs. eapply StronglySorted_sublist; [done|]. by apply top_indices_ranked.
Qed.

End Ranker.

(** The matcher of the sample database, and its scores for "Water Heaters":
    the sections 502 of the two editions tie. *)
Lemma sample_matcher_initialized :
  (initialize bow_fit bow_transform KeywordMatcher_init (Some "IPC")
     sample_session).2 = Ok sample_matcher.
Proof. vm_compute. reflexivity. Qed.

Lemma sample_similarities :
  self_icc_sections sample_matcher = [sec_501; sec_502; sec_502_2024; sec_701]
  ∧ similarities bow_transform jaccard sample_matcher csi_22_40
    = [2 # 12; 2 # 6; 2 # 6; 0 # 10]%Q.
Proof. split; vm_compute; reflexivity. Qed.

Lemma find_matches_bounds_witness :
  ∃ results,
    find_matches bow_transform jaccard insertion_argsort sample_matcher csi_22_40
      2 0.1 = Ok results
    ∧ Z.of_nat (length results) ≤ 2
    ∧ Forall (λ r, (0.1 <= MatchResult.score r)%Q) results.
Proof.
  destruct (find_matches_bounds bow_fit bow_transform jaccard insertion_argsort
              KeywordMatcher_init (Some "IPC") sample_session sample_matcher
              csi_22_40 2 0.1)
    as (results & Hok & Hlen & Hmin & _).
  - apply insertion_argsort_contract.
  - exact sample_matcher_initialized.
  - exists results. split_and!; [assumption|apply Hlen; lia|assumption].
Defined.

Lemma find_matches_tie_order_witness :
  ∃ results idxs,
    find_matches bow_transform jaccard insertion_argsort sample_matcher csi_22_40
      10 0.1 = Ok results
    ∧ Forall2 (λ idx r,
         self_icc_sections sample_matcher !! idx = Some (MatchResult.section r)
         ∧ similarities bow_transform jaccard sample_matcher csi_22_40 !! idx
           = Some (MatchResult.score r))
        idxs results
    ∧ StronglySorted
        (ranks_before (similarities bow_transform jaccard sample_matcher csi_22_40))
        idxs.
Proof.
  destruct (find_matches_tie_order bow_fit bow_transform jaccard insertion_argsort
              KeywordMatcher_init (Some "IPC") sample_session sample_matcher
              csi_22_40 10 0.1)
    as (results & idxs & Hok & Hall & _ & Hties).
  - apply insertion_argsort_contract.
  - vm_compute. reflexivity.
  - exists results, idxs. split_and!; [assumption..|].
    apply Hties, insertion_argsort_stable.
Defined.

(** C3, as stated, fails: sections 502 of the two editions are at corpus
    positions 1 and 2 and get the same score, and with the insertion argsort
    the one at position 2 is returned first. *)
Lemma find_matches_tie_order_counterexample :
  self_icc_sections sample_matcher = [sec_501; sec_502; sec_502_2024; sec_701]
  ∧ similarities bow_transform jaccard sample_matcher csi_22_40
    = [2 # 12; 2 # 6; 2 # 6; 0 # 10]%Q
  ∧ insertion_argsort [2 # 12; 2 # 6; 2 # 6; 0 # 10]%Q = [3; 0; 1; 2]%nat
  ∧ result_map (fmap MatchResult.section)
      (find_matches bow_transform jaccard insertion_argsort sample_matcher
         csi_22_40 10 0.1)
    = Ok [sec_502_2024; sec_502; sec_501].
Proof. split_and!; vm_compute; reflexivity. Qed.

(** ** Search Orchestrator *)

Lemma read_only_ret {A} (a : A) : read_only (ret a).
Proof. done. Qed.
Lemma read_only_raise {A} e : read_only (@raise A e).
Proof. done. Qed.
Lemma read_only_query {A} (q : Session → A) : read_only (query q).
Proof. done. Qed.
Lemma read_only_lift {A} (r : Result A) : read_only (lift r).
Proof. done. Qed.
Lemma read_only_bind {A B} (m : DB A) (k : A → DB B) :
  read_only m → (∀ a, read_only (k a)) → read_only (bind m k).
Proof.
  intros Hm Hk s. unfold bind. specialize (Hm s).
  destruct (m s) as [s' [a|e]]; simpl in *; subst; [apply Hk|done].
Qed.
Lemma read_only_try_except {A} (m : DB A) (h : Exception → DB A) :
  read_only m → (∀ e, read_only (h e)) → read_only (try_except m h).
Proof.
  intros Hm Hh s. unfold try_except. specialize (Hm s).
  destruct (m s) as [s' [a|e]]; simpl in *; subst; [done|apply Hh].
Qed.

Lemma read_only_run {A} (m : DB A) s : read_only m → m s = (s, (m s).2).
Proof. intros Hm. specialize (Hm s). destruct (m s); simpl in *. by subst. Qed.

Create HintDb read_only.
#[local] Hint Resolve read_only_ret read_only_raise read_only_query read_only_lift
  read_only_bind read_only_try_except : read_only.

Lemma read_only_search_csi_to_icc code state year doc :
  read_only (search_csi_to_icc code state year doc).
Proof.
  unfold search_csi_to_icc, get_csi_code, get_icc_sections_for_csi_code.
  apply read_only_bind; [auto with read_only|].
  intros [csi|]; auto with read_only.
Qed.

Lemma suggested_sections_loop_run matches suggested s :
  suggested_sections_loop matches suggested s
  = (s, Ok (suggested ++ (MatchResult.section <$> matches))).
Proof.
  revert suggested. induction matches as [|m matches IH]; intros suggested; simpl.
  - by rewrite app_nil_r.
  - unfold bind, section_document, query.
    destruct (head _); simpl; rewrite IH; by rewrite <- app_assoc.
Qed.

Section Orchestrator.
Context {Vocabulary Vector : Type}.
Context (fit : list string → Result Vocabulary).
Context (transform : Vocabulary → string → Vector).
Context (cosine_similarity : Vector → Vector → Q).
Context (argsort : list Q → list nat).

Lemma read_only_initialize (self : @KeywordMatcher Vocabulary Vector) code :
  read_only (initialize fit transform self code).
Proof.
  intros s. unfold initialize.
  destruct (corpus_sections code s); [done|]. by destruct (fit _).
Qed.

Lemma read_only_search_codes_matches req csi :
  read_only (search_codes_matches fit transform cosine_similarity argsort req csi).
Proof.
  unfold search_codes_matches.
  apply read_only_bind; [apply read_only_initialize|auto with read_only].
Qed.

Lemma search_codes_fallback_run req csi result s :
  search_codes_fallback fit transform cosine_similarity argsort req csi result s
  = (s, result_map
          (λ matches,
             SearchResult.mk (SearchResult.csi_code result)
               (MatchResult.section <$> matches)
               (Z.of_nat (length matches)) (Some "keyword_matching"))
          (search_codes_matches fit transform cosine_similarity argsort req csi s).2).
Proof.
  unfold search_codes_fallback, bind.
  rewrite (read_only_run _ s (read_only_search_codes_matches req csi)).
  destruct (search_codes_matches _ _ _ _ _ _ s).2 as [matches|e]; simpl; [|done].
  rewrite suggested_sections_loop_run. simpl. by rewrite length_fmap.
Qed.

Lemma search_csi_to_icc_inv code state year doc s result :
  (search_csi_to_icc code state year doc s).2 = Ok (Some result) →
  search_csi_to_icc code state year doc s = (s, Ok (Some result))
  ∧ get_csi_code code s = (s, Ok (Some (SearchResult.csi_code result)))
  ∧ SearchResult.total_results result
    = Z.of_nat (length (SearchResult.icc_sections result))
  ∧ SearchResult.source result = None.
Proof.
  intros H. rewrite (read_only_run _ s (read_only_search_csi_to_icc _ _ _ _)), H.
  split; [done|]. revert H.
  unfold search_csi_to_icc, bind, get_csi_code, query. simpl.
  destruct (head _) as [csi|]; simpl; [|done]. by intros [= <-].
Qed.

(** C8. The search never writes: whatever the request, and whether it ends
    with curated sections, with suggestions of the fallback, without match or
    with the 404 error, the session is the one it started from: the same
    committed mapping rows, nothing added, and no add or commit in the
    journal. Writes are those of [create_keyword_mappings] and
    [create_mapping], which the search does not call. *)
Theorem search_codes_read_only (search_req : SearchRequest.t) (db : Session) :
  (search_codes fit transform cosine_similarity argsort search_req db).1 = db.
Proof.
  revert db. change (read_only (search_codes fit transform cosine_similarity argsort search_req)).
  unfold search_codes.
  apply read_only_bind; [apply read_only_search_csi_to_icc|].
  intros [result|]; [|auto with read_only].
  case_bool_decide; [|auto with read_only].
  apply read_only_bind; [unfold get_csi_code; auto with read_only|].
  intros [csi|]; [|auto with read_only].
  apply read_only_try_except; [|auto with read_only].
  intros s. by rewrite search_codes_fallback_run.
Qed.

Lemma search_codes_run req s result :
  (search_csi_to_icc (SearchRequest.csi_code req) (SearchRequest.state req)
     (SearchRequest.year req) (SearchRequest.icc_document req) s).2
  = Ok (Some result) →
  let csi := SearchResult.csi_code result in
  search_codes fit transform cosine_similarity argsort req s
  = (s, Ok
      match SearchResult.icc_sections result with
      | _ :: _ =>
          SearchResult.mk csi (SearchResult.icc_sections result)
            (Z.of_nat (length (SearchResult.icc_sections result)))
            (Some "manual_mappings")
      | [] =>
          match (search_codes_matches fit transform cosine_similarity argsort req csi s).2 with
          | Ok matches =>
              SearchResult.mk csi (MatchResult.section <$> matches)
                (Z.of_nat (length matches)) (Some "keyword_matching")
          | Raise _ => SearchResult.mk csi [] 0 (Some "no_mappings")
          end
      end).
Proof.
  intros (Hrun & Hcsi & Htotal & _)%search_csi_to_icc_inv csi.
  unfold search_codes, bind. rewrite Hrun, Htotal.
  destruct (SearchResult.icc_sections result) as [|sec curated] eqn:Hcur.
  - rewrite bool_decide_eq_true_2 by done. rewrite Hcsi.
    unfold try_except. rewrite search_codes_fallback_run. fold csi.
    by destruct (search_codes_matches _ _ _ _ _ _ s).2.
  - by rewrite bool_decide_eq_false_2.
Qed.

(** C1, amended. For a search on an existing QueryCode, the tag is
    [manual_mappings] (curated) exactly when the curated lookup is not empty;
    [keyword_matching] (fallback_matched) exactly when the curated lookup is
    empty and the fallback stage completes without raising, with any number
    of matches, zero included; [no_mappings] (no_match) exactly when the
    curated lookup is empty and the fallback stage raises. The sections
    returned are the curated ones, those of the matches, or none. *)
Theorem search_codes_source req s result :
  (search_csi_to_icc (SearchRequest.csi_code req) (SearchRequest.state req)
     (SearchRequest.year req) (SearchRequest.icc_document req) s).2
  = Ok (Some result) →
  let curated := SearchResult.icc_sections result in
  let fallback :=
    (search_codes_matches fit transform cosine_similarity argsort req
       (SearchResult.csi_code result) s).2 in
  ∃ r,
    search_codes fit transform cosine_similarity argsort req s = (s, Ok r)
    ∧ (SearchResult.source r = Some "manual_mappings" ↔ curated ≠ [])
    ∧ (SearchResult.source r = Some "keyword_matching"
       ↔ curated = [] ∧ ∃ matches, fallback = Ok matches)
    ∧ (SearchResult.source r = Some "no_mappings"
       ↔ curated = [] ∧ ∃ e, fallback = Raise e)
    ∧ (curated ≠ [] → SearchResult.icc_sections r = curated)
    ∧ (∀ matches, curated = [] → fallback = Ok matches →
         SearchResult.icc_sections r = MatchResult.section <$> matches)
    ∧ (∀ e, curated = [] → fallback = Raise e → SearchResult.icc_sections r = []).
Proof.
  intros Hrun curated fallback. eexists. split; [by apply search_codes_run|].
  fold curated fallback. clearbody curated fallback.
  destruct curated as [|sec curated]; [destruct fallback as [matches|e]|]; simpl.
  all: split_and!; try split; intros; destruct_and?;
    repeat match goal with H : ∃ _, _ |- _ => destruct H end;
    simplify_eq/=; try done; eauto.
Qed.

(** C7. For a search on an existing QueryCode without curated section, when
    the fallback stage raises, whatever the exception, the handler returns a
    result with the tag [no_mappings] (no_match), zero sections and
    [total_results = 0], and no error reaches the caller. The fallback stage
    raises, in particular, when the corpus of the requested document family
    is empty and when fitting the vectorizer raises. *)
Theorem search_codes_fallback_failure req s result :
  (search_csi_to_icc (SearchRequest.csi_code req) (SearchRequest.state req)
     (SearchRequest.year req) (SearchRequest.icc_document req) s).2
  = Ok (Some result) →
  SearchResult.icc_sections result = [] →
  let csi := SearchResult.csi_code result in
  let fallback := (search_codes_matches fit transform cosine_similarity argsort req csi s).2 in
  let corpus := corpus_sections (SearchRequest.icc_document req) s in
  (∀ e, fallback = Raise e →
     search_codes fit transform cosine_similarity argsort req s
     = (s, Ok (SearchResult.mk csi [] 0 (Some "no_mappings"))))
  ∧ (corpus = [] →
     fallback = Raise (ValueError "No ICC sections found in database"))
  ∧ (∀ e, corpus ≠ [] → fit (_create_searchable_text <$> corpus) = Raise e →
       fallback = Raise e).
Proof.
  intros Hrun Hcur csi fallback corpus. split_and!.
  - intros e He. rewrite (search_codes_run _ _ _ Hrun), Hcur.
    fold csi fallback. by rewrite He.
  - intros Hempty. subst fallback. unfold search_codes_matches, bind, initialize.
    fold corpus. by rewrite Hempty.
  - intros e Hne He. subst fallback. unfold search_codes_matches, bind, initialize.
    fold corpus. destruct corpus; [done|]. by rewrite He.
Qed.

End Orchestrator.


(** C1, as stated, fails: for CSI code 03 30 00 the curated lookup is empty,
    the fallback runs without error and no candidate reaches [min_score];
    the tag is [keyword_matching], where the specification gives
    [no_mappings]. *)
Lemma search_codes_source_counterexample :
  (search_csi_to_icc "03 30 00" None None None sample_session).2
  = Ok (Some (SearchResult.mk csi_03_30 [] 0 None))
  ∧ (search_codes_matches bow_fit bow_transform jaccard insertion_argsort
       (SearchRequest.mk "03 30 00" None None None) csi_03_30 sample_session).2
    = Ok []
  ∧ (search_codes bow_fit bow_transform jaccard insertion_argsort
       (SearchRequest.mk "03 30 00" None None None) sample_session).2
    = Ok (SearchResult.mk csi_03_30 [] 0 (Some "keyword_matching"))
  ∧ spec_source_tag [] [] = "no_mappings"
  ∧ Some "keyword_matching" ≠ Some (spec_source_tag [] []).
Proof. split_and!; [vm_compute; reflexivity..|discriminate]. Qed.

Lemma search_codes_source_witness :
  ∃ r,
    search_codes bow_fit bow_transform jaccard insertion_argsort
      (SearchRequest.mk "22 40 00" None None None) sample_session
    = (sample_session, Ok r)
    ∧ SearchResult.source r = Some "keyword_matching".
Proof.
  destruct (search_codes_source bow_fit bow_transform jaccard insertion_argsort
              (SearchRequest.mk "22 40 00" None None None) sample_session
              (SearchResult.mk csi_22_40 [] 0 None))
    as (r & Hrun & _ & Hkw & _).
  - vm_compute. reflexivity.
  - exists r. split; [exact Hrun|]. apply Hkw. split; [reflexivity|].
    eexists. vm_compute. reflexivity.
Defined.

(** With a curated mapping of 22 40 00 to section 501, the search returns
    that section, tagged [manual_mappings]. *)
Example search_codes_curated :
  (search_codes bow_fit bow_transform jaccard insertion_argsort
     (SearchRequest.mk "22 40 00" None None None) curated_session).2
  = Ok (SearchResult.mk csi_22_40 [sec_501] 1 (Some "manual_mappings")).
Proof. vm_compute. reflexivity. Qed.

Lemma search_codes_fallback_failure_witness :
  search_codes bow_fit bow_transform jaccard insertion_argsort
    (SearchRequest.mk "22 40 00" None None (Some "IBC")) sample_session
  = (sample_session, Ok (SearchResult.mk csi_22_40 [] 0 (Some "no_mappings"))).
Proof.
  destruct (search_codes_fallback_failure bow_fit bow_transform jaccard
              insertion_argsort
              (SearchRequest.mk "22 40 00" None None (Some "IBC")) sample_session
              (SearchResult.mk csi_22_40 [] 0 None))
    as (Hhandled & Hempty & _).
  - vm_compute. reflexivity.
  - reflexivity.
  - apply (Hhandled (ValueError "No ICC sections found in database")).
    apply Hempty. vm_compute. reflexivity.
Defined.

(** ** Mapping Synthesizer *)

Lemma session_eta s :
  mkSession (store s) (pending s) (autoflush s) (journal s) = s.
Proof. by destruct s. Qed.

Lemma find_existing_mapping_run csi_code_id icc_section_id s :
  ∃ existing,
    find_existing_mapping csi_code_id icc_section_id s = (s, Ok existing)
    ∧ (existing = None
       ↔ (csi_code_id, icc_section_id) ∉ mapping_key <$> visible_mappings s).
Proof.
  unfold find_existing_mapping, query. eexists. split; [done|].
  induction (visible_mappings s) as [|m rows IH]; simpl.
  - split; [|done]. intros _. apply not_elem_of_nil.
  - rewrite filter_cons. case_decide as Hkey; simpl.
    + split; [done|]. intros []. rewrite Hkey. left.
    + rewrite IH, not_elem_of_cons. split; [by intros ?|by intros [_ ?]].
Qed.

Lemma flush_spec rows added :
  NoDup (mapping_key <$> (rows ++ added)) →
  ∃ rows', flush rows added = Some (rows ++ rows')
           ∧ mapping_key <$> rows' = mapping_key <$> added.
Proof.
  revert rows. induction added as [|m added IH]; intros rows Hnd; simpl.
  - exists []. by rewrite app_nil_r.
  - rewrite fmap_app, fmap_cons in Hnd.
    rewrite bool_decide_eq_false_2.
    2:{ apply NoDup_app in Hnd as (_ & Hdisj & _). intros Hin.
        apply (Hdisj _ Hin). left. }
    set (m' := CSIICCMapping.mk _ _ _ _ _ _).
    destruct (IH (rows ++ [m'])) as (rows' & -> & Hkeys).
    { rewrite !fmap_app. simpl. rewrite <- app_assoc. done. }
    exists (m' :: rows'). rewrite <- app_assoc. split; [done|].
    by rewrite fmap_cons, Hkeys.
Qed.

Lemma flush_unique rows added rows' :
  unique_keys rows → flush rows added = Some rows' → unique_keys rows'.
Proof.
  unfold unique_keys. revert rows.
  induction added as [|m added IH]; intros rows Hnd; simpl.
  - by intros [= <-].
  - case_bool_decide as Hin; [done|]. apply IH.
    rewrite fmap_app. simpl. apply NoDup_app. split_and!; [done| |].
    + intros k Hk Hk'. apply list_elem_of_singleton in Hk' as ->. done.
    + apply NoDup_singleton.
Qed.

Lemma flush_prefix rows added rows' :
  flush rows added = Some rows' → rows `prefix_of` rows'.
Proof.
  revert rows. induction added as [|m added IH]; intros rows; simpl.
  - by intros [= <-].
  - case_bool_decide; [done|]. intros Hpre%IH.
    etrans; [|done]. by apply prefix_app_r.
Qed.

(** Every commit keeps the unique constraint on the committed rows. *)
Lemma db_commit_unique s :
  unique_keys (csi_icc_mappings (store s)) →
  unique_keys (csi_icc_mappings (store (db_commit s).1)).
Proof.
  intros Hnd. unfold db_commit.
  destruct (flush _ _) as [rows|] eqn:Hflush; simpl; [|done].
  by eapply flush_unique.
Qed.

Lemma create_keyword_mappings_loop_spec csi_code relevance_map now matches :
  ∀ created s, ∃ added,
    create_keyword_mappings_loop csi_code relevance_map now matches created s
    = (mkSession (store s) (pending s ++ added) (autoflush s)
         (journal s ++ (WAdd <$> added)),
       Ok (created + Z.of_nat (length added)))
    ∧ mapping_key <$> added ⊆ match_key csi_code <$> matches
    ∧ (∀ k, k ∈ mapping_key <$> added → k ∉ mapping_key <$> visible_mappings s)
    ∧ (∀ k, k ∈ match_key csi_code <$> matches →
         k ∈ mapping_key <$> visible_mappings s ∨ k ∈ mapping_key <$> added)
    ∧ (autoflush s = true ∨ NoDup (match_key csi_code <$> matches) →
       NoDup (mapping_key <$> added)).
Proof.
  induction matches as [|m matches IH]; intros created s; simpl.
  - exists []. simpl. rewrite !app_nil_r, session_eta, Z.add_0_r.
    split_and!; [done|done| | |intros; constructor].
    + intros k Hk. by apply elem_of_nil in Hk.
    + intros k Hk. by apply elem_of_nil in Hk.
  - unfold bind.
    destruct (find_existing_mapping_run (CSICode.id csi_code)
                (ICCSection.id (MatchResult.section m)) s)
      as (existing & -> & Hex).
    destruct existing as [row|].
    + destruct (IH created s) as (added & -> & Hsub & Hfresh & Hall & Hnd).
      exists added. split_and!; [done| |done| |].
      * set_solver.
      * intros k [->|Hk]%elem_of_cons; [|by apply Hall].
        left. destruct (decide ((CSICode.id csi_code, ICCSection.id (MatchResult.section m))
                                 ∈ mapping_key <$> visible_mappings s)) as [|Hn]; [done|].
        by apply Hex in Hn.
      * intros [?|Hm]; apply Hnd; [by left|right]. by apply NoDup_cons in Hm as [_ ?].
    + set (mapping := CSIICCMapping.mk _ _ _ _ _ _).
      unfold db_add at 1.
      set (s1 := mkSession _ _ _ _).
      destruct (IH (created + 1) s1) as (added & -> & Hsub & Hfresh & Hall & Hnd).
      assert (∀ k, k ∈ mapping_key <$> visible_mappings s →
                   k ∈ mapping_key <$> visible_mappings s1) as Hmono.
      { intros k. unfold visible_mappings, s1. simpl.
        destruct (autoflush s); rewrite ?fmap_app; set_solver. }
      assert (∀ k, k ∈ mapping_key <$> visible_mappings s1 →
                   k ∈ mapping_key <$> visible_mappings s ∨ k = mapping_key mapping)
        as Hinv.
      { intros k. unfold visible_mappings, s1. simpl.
        destruct (autoflush s); rewrite ?fmap_app; set_solver. }
      assert (mapping_key mapping ∉ mapping_key <$> visible_mappings s) as Hnew.
      { by apply Hex. }
      exists (mapping :: added). subst s1. simpl. split_and!.
      * rewrite <- !app_assoc. simpl. do 2 f_equal. lia.
      * rewrite ?fmap_cons. set_solver.
      * rewrite ?fmap_cons.
        intros k [->|Hk]%elem_of_cons; [done|]. intros Hin. by apply (Hfresh k), Hmono.
      * rewrite ?fmap_cons. intros k [->|Hk]%elem_of_cons.
        -- right. left.
        -- destruct (Hall k Hk) as [[?| ->]%Hinv|?]; [by left|right; left|right; by right].
      * intros Hcase. rewrite ?fmap_cons. apply NoDup_cons. split.
        -- destruct Hcase as [Hauto|Hm].
           ++ intros Hin. apply (Hfresh _ Hin).
              unfold visible_mappings. simpl. rewrite Hauto, !fmap_app. set_solver.
           ++ rewrite ?fmap_cons in Hm. apply NoDup_cons in Hm as [Hm _].
              intros Hin. apply Hm, Hsub, Hin.
        -- apply Hnd. destruct Hcase as [?|Hm]; [by left|right].
           rewrite ?fmap_cons in Hm. by apply NoDup_cons in Hm as [_ ?].
Qed.

Lemma create_keyword_mappings_skip_all csi_code matches relevance_map now s :
  Forall (λ m, match_key csi_code m ∈ mapping_key <$> visible_mappings s) matches →
  create_keyword_mappings csi_code matches relevance_map now s = (s, Ok 0).
Proof.
  intros Hall. unfold create_keyword_mappings, bind.
  destruct (create_keyword_mappings_loop_spec csi_code
              (default default_relevance_map relevance_map) now matches 0 s)
    as (added & -> & Hsub & Hfresh & _).
  destruct added as [|a added].
  - simpl. by rewrite !app_nil_r, session_eta.
  - exfalso. apply (Hfresh (mapping_key a)); [left|].
    assert (mapping_key a ∈ match_key csi_code <$> matches) as Hin.
    { apply Hsub. left. }
    apply list_elem_of_fmap in Hin as (m & -> & Hm).
    by rewrite Forall_forall in Hall; apply Hall.
Qed.

Lemma create_keyword_mappings_unique csi_code matches relevance_map now s :
  unique_keys (csi_icc_mappings (store s)) →
  unique_keys (csi_icc_mappings
                 (store (create_keyword_mappings csi_code matches relevance_map now s).1)).
Proof.
  intros Huniq. unfold create_keyword_mappings, bind.
  destruct (create_keyword_mappings_loop_spec csi_code
              (default default_relevance_map relevance_map) now matches 0 s)
    as (added & -> & _).
  destruct (0 <? 0 + Z.of_nat (length added)); [|done].
  match goal with |- context [db_commit ?s0] =>
    pose proof (db_commit_unique s0 Huniq) as Hc; destruct (db_commit s0) as [? []]
  end; done.
Qed.

Lemma create_mapping_unique csi_code_id icc_section_id relevance notes s :
  unique_keys (csi_icc_mappings (store s)) →
  unique_keys (csi_icc_mappings
                 (store (create_mapping csi_code_id icc_section_id relevance notes s).1)).
Proof.
  intros Huniq. unfold create_mapping, bind, db_add.
  match goal with |- context [db_commit ?s0] =>
    pose proof (db_commit_unique s0 Huniq) as Hc; destruct (db_commit s0) as [? []]
  end; done.
Qed.

(** C6, amended. Over a mapping table that satisfies its unique constraint,
    the synthesizer keeps the constraint for every QueryCode and list of
    MatchResults, as does the curator's [create_mapping]: at most one row per
    pair, whatever the call. Called on a session without uncommitted rows,
    with matches of pairwise distinct sections or with an autoflushing
    session, the synthesizer returns; it appends one new row per pair of the
    matches that had no mapping, and only those, leaving the existing rows as
    they were; it returns their number; and a second call with the same
    arguments changes nothing and returns 0. *)
Theorem create_keyword_mappings_idempotent csi_code matches relevance_map now s :
  unique_keys (csi_icc_mappings (store s)) →
  unique_keys (csi_icc_mappings
                 (store (create_keyword_mappings csi_code matches relevance_map now s).1))
  ∧ (∀ csi_code_id icc_section_id relevance notes,
       unique_keys (csi_icc_mappings
                      (store (create_mapping csi_code_id icc_section_id
                                relevance notes s).1)))
  ∧ (pending s = [] →
     autoflush s = true ∨ NoDup (match_key csi_code <$> matches) →
     ∃ s1 new_rows,
       create_keyword_mappings csi_code matches relevance_map now s
       = (s1, Ok (Z.of_nat (length new_rows)))
       ∧ csi_icc_mappings (store s1) = csi_icc_mappings (store s) ++ new_rows
       ∧ pending s1 = []
       ∧ NoDup (mapping_key <$> new_rows)
       ∧ (∀ k, k ∈ mapping_key <$> new_rows
               ↔ k ∈ match_key csi_code <$> matches
                 ∧ k ∉ mapping_key <$> csi_icc_mappings (store s))
       ∧ create_keyword_mappings csi_code matches relevance_map now s1 = (s1, Ok 0)).
Proof.
  intros Huniq. split; [by apply create_keyword_mappings_unique|].
  split; [intros; by apply create_mapping_unique|].
  intros Hpend Hcase.
  assert (visible_mappings s = csi_icc_mappings (store s)) as Hvis.
  { unfold visible_mappings. rewrite Hpend. destruct (autoflush s); apply app_nil_r. }
  unfold create_keyword_mappings at 1. unfold bind.
  destruct (create_keyword_mappings_loop_spec csi_code
              (default default_relevance_map relevance_map) now matches 0 s)
    as (added & -> & Hsub & Hfresh & Hall & Hnd).
  specialize (Hnd Hcase). rewrite Hvis in Hfresh, Hall. rewrite Hpend. simpl.
  destruct (decide (added = [])) as [->|Hne].
  - simpl. exists s, []. rewrite !app_nil_r. rewrite <- Hpend at 1. rewrite session_eta.
    split_and!; [done|done|done|constructor| |].
    + intros k. split; [by intros ?%elem_of_nil|]. intros [Hk Hn].
      by destruct (Hall k Hk).
    + apply create_keyword_mappings_skip_all. rewrite Hvis.
      apply Forall_forall. intros m Hm.
      destruct (Hall (match_key csi_code m)) as [?|?%elem_of_nil]; [|done..].
      apply list_elem_of_fmap. eauto.
  - assert ((0 <? 0 + Z.of_nat (length added)) = true) as ->.
    { apply Z.ltb_lt. destruct added; [done|simpl; lia]. }
    unfold db_commit. cbn [store pending autoflush journal].
    destruct (flush_spec (csi_icc_mappings (store s)) added) as (rows' & -> & Hkeys).
    { rewrite fmap_app. apply NoDup_app. split_and!; [done| |done].
      intros k Hk Hk'. by apply (Hfresh k). }
    assert (length rows' = length added) as Hlen.
    { by rewrite <- (length_fmap mapping_key rows'), Hkeys, length_fmap. }
    eexists _, rows'. split_and!.
    + rewrite Hlen. done.
    + done.
    + done.
    + by rewrite Hkeys.
    + intros k. rewrite Hkeys. split.
      * intros Hk. split; [by apply Hsub|by apply Hfresh].
      * intros [Hk Hn]. by destruct (Hall k Hk).
    + apply create_keyword_mappings_skip_all.
      unfold visible_mappings. cbn [store pending autoflush csi_icc_mappings].
      replace (if autoflush s then [] else []) with (@nil CSIICCMapping.t)
        by by destruct (autoflush s).
      rewrite app_nil_r.
      apply Forall_forall. intros m Hm. rewrite fmap_app, Hkeys.
      apply elem_of_app, Hall, list_elem_of_fmap. eauto.
Qed.

(** C10. When every match already has a mapping the session sees, and in
    particular when there is no match, the synthesizer returns 0 and leaves
    the session as it was: the same rows, nothing added, no add and no commit
    in the journal. Conversely, whenever it returns 0 the session is
    unchanged. *)
Theorem create_keyword_mappings_nothing_created csi_code matches relevance_map now s :
  (Forall (λ m, match_key csi_code m ∈ mapping_key <$> visible_mappings s) matches →
     create_keyword_mappings csi_code matches relevance_map now s = (s, Ok 0))
  ∧ create_keyword_mappings csi_code [] relevance_map now s = (s, Ok 0)
  ∧ (∀ s', create_keyword_mappings csi_code matches relevance_map now s = (s', Ok 0) →
       s' = s).
Proof.
  split_and!.
  - apply create_keyword_mappings_skip_all.
  - by apply create_keyword_mappings_skip_all.
  - intros s'. unfold create_keyword_mappings, bind.
    destruct (create_keyword_mappings_loop_spec csi_code
                (default default_relevance_map relevance_map) now matches 0 s)
      as (added & -> & _).
    destruct added as [|a added].
    + simpl. rewrite !app_nil_r, session_eta. by intros [= <-].
    + assert ((0 <? 0 + Z.of_nat (length (a :: added))) = true) as ->.
      { apply Z.ltb_lt. simpl. lia. }
      unfold db_commit. destruct (flush _ _); [|done].
      unfold ret. intros Heq. inversion Heq; lia.
Qed.

(** The synthesizer on the sample database: three rows are created, then none. *)
Example create_keyword_mappings_sample :
  ∃ s1,
    create_keyword_mappings csi_22_40 sample_matches None 1700000000 sample_session
    = (s1, Ok 3)
    ∧ mapping_key <$> csi_icc_mappings (store s1) = [(7, 3); (7, 2); (7, 1)]
    ∧ CSIICCMapping.id <$> csi_icc_mappings (store s1) = [Some 1; Some 2; Some 3]
    ∧ CSIICCMapping.notes <$> csi_icc_mappings (store s1)
      = [Some "Auto-generated via keyword matching (score: 0.333, keywords: heaters, water)";
         Some "Auto-generated via keyword matching (score: 0.333, keywords: heaters, water)";
         Some "Auto-generated via keyword matching (score: 0.167, keywords: heaters, water)"]
    ∧ length (journal s1) = 4%nat ∧ last (journal s1) = Some WCommit
    ∧ create_keyword_mappings csi_22_40 sample_matches None 1700000000 s1 = (s1, Ok 0).
Proof. eexists. split_and!; vm_compute; reflexivity. Qed.

(** Without autoflush, a list that holds the same section twice makes the
    commit fail on the unique constraint; with autoflush the second
    occurrence is skipped. *)
Example create_keyword_mappings_duplicate_section :
  (create_keyword_mappings csi_22_40 (take 1 sample_matches ++ take 1 sample_matches)
     None 1700000000 sample_session).2 = Raise IntegrityError
  ∧ (create_keyword_mappings csi_22_40 (take 1 sample_matches ++ take 1 sample_matches)
       None 1700000000 (mkSession sample_db [] true [])).2 = Ok 1.
Proof. split; vm_compute; reflexivity. Qed.

(** C6, as stated for every list of MatchResults, fails: on the sample
    session, which sees committed rows only, the list that holds the match of
    section 502 (2024 edition) twice has no mapping for its pair; both
    occurrences pass the existence check, two objects are added, the commit
    raises [IntegrityError], and no row is created. *)
Lemma create_keyword_mappings_idempotent_counterexample :
  MatchResult.section <$> (take 1 sample_matches ++ take 1 sample_matches)
  = [sec_502_2024; sec_502_2024]
  ∧ match_key csi_22_40 <$> (take 1 sample_matches ++ take 1 sample_matches)
    = [(7, 3); (7, 3)]
  ∧ csi_icc_mappings (store sample_session) = []
  ∧ pending sample_session = []
  ∧ autoflush sample_session = false
  ∧ (create_keyword_mappings csi_22_40
       (take 1 sample_matches ++ take 1 sample_matches) None 1700000000
       sample_session).2 = Raise IntegrityError
  ∧ csi_icc_mappings
      (store (create_keyword_mappings csi_22_40
                (take 1 sample_matches ++ take 1 sample_matches) None 1700000000
                sample_session).1) = [].
Proof. split_and!; vm_compute; reflexivity. Qed.

Lemma create_keyword_mappings_idempotent_witness :
  ∃ s1 new_rows,
    create_keyword_mappings csi_22_40 sample_matches None 1700000000 sample_session
    = (s1, Ok (Z.of_nat (length new_rows)))
    ∧ csi_icc_mappings (store s1) = csi_icc_mappings (store sample_session) ++ new_rows
    ∧ create_keyword_mappings csi_22_40 sample_matches None 1700000000 s1 = (s1, Ok 0).
Proof.
  destruct (create_keyword_mappings_idempotent csi_22_40 sample_matches None
              1700000000 sample_session) as (_ & _ & Hmain).
  - vm_compute. constructor.
  - destruct Hmain as (s1 & new_rows & Hrun & Hrows & _ & _ & _ & Hagain).
    + reflexivity.
    + right. apply (bool_decide_unpack _). vm_compute. exact I.
    + exists s1, new_rows. split_and!; assumption.
Defined.

Lemma create_keyword_mappings_nothing_created_witness :
  create_keyword_mappings csi_22_40 [] None 1700000000 sample_session
  = (sample_session, Ok 0).
Proof.
  apply (proj1 (create_keyword_mappings_nothing_created csi_22_40 [] None
                  1700000000 sample_session)).
  constructor.
Defined.

(** * Further properties *)

(** ** Texts, keywords and descriptions *)

Lemma ascii_lower_idemp c : ascii_lower (ascii_lower c) = ascii_lower c.
Proof. by destruct c as [[] [] [] [] [] [] [] []]. Qed.

Lemma lower_idemp s : lower (lower s) = lower s.
Proof. induction s as [|c s IH]; simpl; [done|]. by rewrite ascii_lower_idemp, IH. Qed.

Lemma string_app_cons c (a b : string) : String c a +:+ b = String c (a +:+ b).
Proof. done. Qed.

Lemma string_app_nil_l (a : string) : "" +:+ a = a.
Proof. done. Qed.

Lemma lower_app a b : lower (a +:+ b) = lower a +:+ lower b.
Proof.
  induction a as [|c a IH]; [done|].
  rewrite string_app_cons. simpl. by rewrite IH.
Qed.

Lemma string_app_assoc (a b c : string) : (a +:+ b) +:+ c = a +:+ (b +:+ c).
Proof. induction a as [|x a IH]; [done|]. by rewrite !string_app_cons, IH. Qed.

Lemma string_app_nil_r (a : string) : a +:+ "" = a.
Proof. induction a as [|x a IH]; [done|]. by rewrite string_app_cons, IH. Qed.

Lemma str_join_cons sep x y parts :
  join sep (x :: y :: parts) = x +:+ sep +:+ join sep (y :: parts).
Proof. done. Qed.

Lemma join_space_cons x y parts :
  join " " (x :: y :: parts) = x +:+ String " " (join " " (y :: parts)).
Proof. done. Qed.


Lemma split_from_space word a b :
  split_from word (a +:+ String " " b) = split_from word a ++ split b.
Proof.
  revert word. induction a as [|c a IH]; intros word; [done|].
  rewrite string_app_cons. simpl.
  destruct (isspace c); [|done]. by rewrite IH, <- app_assoc.
Qed.

Lemma split_join parts : split (join " " parts) = mjoin (split <$> parts).
Proof.
  induction parts as [|x [|y parts] IH]; [done| |].
  - simpl. by rewrite app_nil_r.
  - rewrite join_space_cons. unfold split at 1. rewrite split_from_space.
    by rewrite IH.
Qed.

Lemma split_from_words word s :
  (word = "" ∨ is_word word) → Forall is_word (split_from word s).
Proof.
  revert word. induction s as [|c s IH]; intros word Hw; simpl.
  - destruct Hw as [->|Hw]; [constructor|].
    destruct word; [by destruct Hw|]. constructor; [done|constructor].
  - destruct (isspace c) eqn:Hc.
    + apply Forall_app. split; [|apply IH; by left].
      destruct Hw as [->|Hw]; [constructor|].
      destruct word; [by destruct Hw|]. constructor; [done|constructor].
    + apply IH. right. split; [by destruct word|].
      destruct Hw as [->|[_ Hw]]; simpl; [by rewrite Hc|].
      clear -Hw Hc. induction word as [|x word IH]; simpl in *; [by rewrite Hc|].
      rewrite ?string_app_cons. simpl.
      apply andb_true_iff in Hw as [-> Hw]. by apply IH.
Qed.

Lemma split_words s : Forall is_word (split s).
Proof. apply split_from_words. by left. Qed.

Lemma split_from_word word w :
  no_space w = true → split_from word w = flush_word (word +:+ w).
Proof.
  revert word. induction w as [|c w IH]; intros word Hw; simpl.
  - by rewrite string_app_nil_r.
  - simpl in Hw. apply andb_true_iff in Hw as [Hc Hw].
    apply negb_true_iff in Hc. rewrite Hc, IH by done.
    by rewrite string_app_assoc, string_app_cons, string_app_nil_l.
Qed.

Lemma split_word w : is_word w → split w = [w].
Proof.
  intros [Hne Hw]. unfold split. rewrite split_from_word by done. simpl.
  by destruct w.
Qed.

Lemma split_join_words ws : Forall is_word ws → split (join " " ws) = ws.
Proof.
  intros Hws. rewrite split_join. induction Hws as [|w ws Hw _ IH]; [done|].
  csimpl. by rewrite split_word, IH.
Qed.

(** *** The matched keywords *)

Lemma lower_cons_inv c s : lower (String c s) = String c s → ascii_lower c = c ∧ lower s = s.
Proof. simpl. intros H. by inversion H as [[H1 H2]]; rewrite H1, H2. Qed.

Lemma split_from_lower word s :
  lower word = word → lower s = s →
  Forall (λ w, lower w = w) (split_from word s).
Proof.
  revert word. induction s as [|c s IH]; intros word Hword Hs; simpl.
  - destruct word; by repeat constructor.
  - apply lower_cons_inv in Hs as [Hc Hs]. destruct (isspace c).
    + apply Forall_app. split; [destruct word; by repeat constructor|by apply IH].
    + apply IH; [|done]. rewrite lower_app, Hword. simpl. by rewrite Hc.
Qed.

Lemma split_lower s : Forall (λ w, lower w = w) (split (lower s)).
Proof. apply split_from_lower; [done|apply lower_idemp]. Qed.

Lemma sort_stable_NoDup {A} (lte : A → A → bool) l : NoDup l → NoDup (sort_stable lte l).
Proof. intros H. by rewrite sort_stable_Permutation. Qed.

Lemma find_matched_keywords_elem_of query text term :
  term ∈ _find_matched_keywords query text →
  term ∈ split (lower query) ∧ term ∈ split (lower text) ∧ term ∉ stop_words.
Proof.
  unfold _find_matched_keywords. intros H.
  apply (λ H, elem_of_sublist _ _ _ H (sublist_take _ _)) in H.
  unfold sorted_len_reverse in H. rewrite sort_stable_elem_of, elem_of_elements in H.
  set_solver.
Qed.

(** X1. The matched keywords hold no term twice, and each term is a
    lowercase word: not empty, without whitespace, and left as it is by
    [lower]. *)
Theorem find_matched_keywords_terms (query text : string) :
  NoDup (_find_matched_keywords query text)
  ∧ Forall (λ term, lower term = term ∧ is_word term)
      (_find_matched_keywords query text).
Proof.
  split.
  - unfold _find_matched_keywords. eapply sublist_NoDup; [|apply sublist_take].
    apply sort_stable_NoDup, NoDup_elements.
  - apply Forall_forall. intros term [Hq _]%find_matched_keywords_elem_of. split.
    + by eapply (proj1 (Forall_forall _ _) (split_lower query)).
    + by eapply (proj1 (Forall_forall _ _) (split_words (lower query))).
Qed.


(** X3. The cut to five keeps the longest terms: a word of both lowered
    texts that is no stop word is among the matched keywords, or five
    keywords are returned and none of them is shorter than it. *)
Theorem find_matched_keywords_longest (query text term : string) :
  term ∈ split (lower query) → term ∈ split (lower text) → term ∉ stop_words →
  term ∈ _find_matched_keywords query text
  ∨ (length (_find_matched_keywords query text) = 5%nat
     ∧ Forall (λ kept, String.length term ≤ String.length kept)%nat
         (_find_matched_keywords query text)).
Proof.
  intros Hq Ht Hs. unfold _find_matched_keywords.
  set (matched := (_ ∖ _) ∩ (_ ∖ _)).
  destruct (decide (term ∈ take 5 (sorted_len_reverse (elements matched))))
    as [Hin|Hout]; [by left|right].
  apply (StronglySorted_take_bound _ 5 _ term
           (sorted_len_reverse_sorted (elements matched))) in Hout; [exact Hout|].
  unfold sorted_len_reverse. rewrite sort_stable_elem_of, elem_of_elements.
  unfold matched. set_solver.
Qed.

Lemma find_matched_keywords_longest_witness :
  "water" ∈ _find_matched_keywords "22 40 00 Plumbing Fixtures and the Water"
              "501.1 Water Heaters Water Heaters for plumbing"
  ∨ (length (_find_matched_keywords "22 40 00 Plumbing Fixtures and the Water"
               "501.1 Water Heaters Water Heaters for plumbing") = 5%nat
     ∧ Forall (λ kept, String.length "water" ≤ String.length kept)%nat
         (_find_matched_keywords "22 40 00 Plumbing Fixtures and the Water"
            "501.1 Water Heaters Water Heaters for plumbing")).
Proof.
  apply (find_matched_keywords_longest
           "22 40 00 Plumbing Fixtures and the Water"
           "501.1 Water Heaters Water Heaters for plumbing" "water");
    apply (bool_decide_unpack _); by vm_compute.
Defined.

(** *** The words of the query text and of the searchable text *)

Lemma split_truthy o : mjoin (split <$> option_list (truthy_str o)) = split (text_of o).
Proof. destruct o as [[|c s]|]; simpl; by rewrite ?app_nil_r. Qed.

Lemma mjoin_fmap_app {A B} (f : A → list B) l1 l2 :
  mjoin (f <$> (l1 ++ l2)) = mjoin (f <$> l1) ++ mjoin (f <$> l2).
Proof. by rewrite fmap_app, join_app. Qed.

Lemma create_csi_query_parts csi_code :
  _create_csi_query csi_code
  = join " " (option_list (truthy_str (CSICode.code csi_code))
              ++ option_list (truthy_str (CSICode.title csi_code))
              ++ option_list (truthy_str (CSICode.title csi_code))
              ++ option_list (truthy_str (CSICode.title csi_code))
              ++ option_list (truthy_str (CSICode.description csi_code))).
Proof.
  unfold _create_csi_query.
  by destruct (truthy_str (CSICode.code csi_code)),
    (truthy_str (CSICode.title csi_code)),
    (truthy_str (CSICode.description csi_code)).
Qed.

Lemma create_searchable_text_parts section :
  _create_searchable_text section
  = join " "
      (option_list (truthy_str (ICCSection.section_number section))
       ++ option_list (truthy_str (ICCSection.title section))
       ++ option_list (truthy_str (ICCSection.title section))
       ++ option_list (truthy_str (ICCSection.description section))
       ++ option_list ((λ n, "chapter " +:+ pretty n)
                         <$> truthy_int (ICCSection.chapter section))).
Proof.
  unfold _create_searchable_text.
  by destruct (truthy_str (ICCSection.section_number section)),
    (truthy_str (ICCSection.title section)),
    (truthy_str (ICCSection.description section)),
    (truthy_int (ICCSection.chapter section)).
Qed.

(** X4. The words of the query text are the words of the code, of the title
    three times and of the description, in this order: a missing or empty
    attribute gives no word, and joining the parts merges no two words. *)
Theorem create_csi_query_words (csi_code : CSICode.t) :
  split (_create_csi_query csi_code)
  = split (text_of (CSICode.code csi_code))
    ++ split (text_of (CSICode.title csi_code))
    ++ split (text_of (CSICode.title csi_code))
    ++ split (text_of (CSICode.title csi_code))
    ++ split (text_of (CSICode.description csi_code)).
Proof.
  rewrite create_csi_query_parts, split_join, !mjoin_fmap_app.
  by rewrite !split_truthy.
Qed.

(** X5. The words of the searchable text are the words of the section
    number, of the title twice, of the description and, for a section with a
    chapter other than 0, the word "chapter" and the chapter number. *)
Theorem create_searchable_text_words (section : ICCSection.t) :
  split (_create_searchable_text section)
  = split (text_of (ICCSection.section_number section))
    ++ split (text_of (ICCSection.title section))
    ++ split (text_of (ICCSection.title section))
    ++ split (text_of (ICCSection.description section))
    ++ match truthy_int (ICCSection.chapter section) with
       | Some chapter => "chapter" :: split (pretty chapter)
       | None => []
       end.
Proof.
  rewrite create_searchable_text_parts, split_join, !mjoin_fmap_app.
  rewrite !split_truthy. do 4 f_equal.
  destruct (truthy_int (ICCSection.chapter section)) as [chapter|]; [|done].
  simpl. by rewrite app_nil_r.
Qed.

(** *** The explanation and the weights *)





(** *** The description of a section in a response *)

Lemma join_snoc_suffix ws w suffix :
  join " " (ws ++ [w]) +:+ suffix = join " " (ws ++ [w +:+ suffix]).
Proof.
  induction ws as [|x ws IH]; [done|].
  destruct ws as [|y ws].
  - simpl. by rewrite !string_app_assoc.
  - change ((x :: y :: ws) ++ [w]) with (x :: y :: (ws ++ [w])).
    change ((x :: y :: ws) ++ [w +:+ suffix]) with (x :: y :: (ws ++ [w +:+ suffix])).
    rewrite !str_join_cons, !string_app_assoc. do 2 f_equal. apply IH.
Qed.

Lemma no_space_app a b : no_space (a +:+ b) = no_space a && no_space b.
Proof.
  induction a as [|c a IH]; [done|].
  rewrite string_app_cons. simpl. by rewrite IH, andb_assoc.
Qed.

Lemma is_word_suffix w : is_word w → is_word (w +:+ "...").
Proof.
  intros [Hne Hw]. split; [by destruct w|].
  by rewrite no_space_app, Hw.
Qed.

Lemma take_snoc_lookup {A} (l : list A) n x :
  l !! n = Some x → take (S n) l = take n l ++ [x].
Proof. intros H. by rewrite (take_S_r _ _ x). Qed.

Lemma truncate_description_long v w :
  (12 < length (split v))%nat → split v !! 11%nat = Some w →
  ∃ s, truncate_description (Some v) = Some s
       ∧ split s = take 11 (split v) ++ [w +:+ "..."].
Proof.
  intros Hlen Hw. unfold truncate_description.
  rewrite bool_decide_eq_false_2 by lia. eexists. split; [done|].
  rewrite (take_snoc_lookup _ _ _ Hw), join_snoc_suffix.
  apply split_join_words. pose proof (split_words v) as Hws.
  apply Forall_app. split; [by apply Forall_take|].
  constructor; [|constructor]. apply is_word_suffix.
  by eapply (proj1 (Forall_forall _ _) Hws), list_elem_of_lookup_2.
Qed.

(** X7. Truncating a description twice is truncating it once, and a
    truncated description has at most twelve words. *)
Theorem truncate_description_idempotent (v : option string) :
  truncate_description (truncate_description v) = truncate_description v
  ∧ (∀ s, truncate_description v = Some s → (length (split s) ≤ 12)%nat).
Proof.
  destruct v as [v|]; [|done].
  destruct (decide (length (split v) ≤ 12)%nat) as [Hle|Hgt].
  - assert (truncate_description (Some v) = Some v) as Hv.
    { unfold truncate_description. by rewrite bool_decide_eq_true_2. }
    rewrite !Hv. split; [done|]. by intros s [= <-].
  - destruct (lookup_lt_is_Some_2 (split v) 11) as [w Hw]; [lia|].
    destruct (truncate_description_long v w) as (s & Hs & Hsplit); [lia|done|].
    assert (length (split s) = 12%nat) as Hlen.
    { rewrite Hsplit, length_app, length_take. cbn [length]. lia. }
    rewrite Hs. split; [|intros s' [= <-]; lia].
    unfold truncate_description. by rewrite bool_decide_eq_true_2 by lia.
Qed.


(** ** The matcher *)

Lemma corpus_sections_sublist code db :
  corpus_sections code db `sublist_of` icc_sections (store db).
Proof. apply sublist_filter. Qed.

Lemma omap_take_sorted {A B} (R : relation A) (f : A → option B) n l :
  StronglySorted R l →
  (∀ x y, R x y → is_Some (f y) → is_Some (f x)) →
  omap f (take n l) = take n (omap f l).
Proof.
  intros Hl HR. revert n. induction Hl as [|x l Hl IH Hx]; intros n.
  - by destruct n.
  - destruct n as [|n]; [done|]. csimpl. destruct (f x) as [v|] eqn:Hfx.
    + csimpl. by rewrite IH.
    + assert (∀ k, k `sublist_of` l → omap f k = []) as Hnil.
      { intros k Hk. induction k as [|y k IHk]; [done|]. csimpl.
        destruct (f y) as [w|] eqn:Hfy.
        - assert (y ∈ l) as Hy by (eapply elem_of_sublist; [left|done]).
          destruct (HR x y) as [v Hv]; [|by eexists|congruence].
          by eapply (proj1 (Forall_forall _ _) Hx).
        - apply IHk. etrans; [apply sublist_cons, reflexivity|done]. }
      rewrite (Hnil (take n l)) by apply sublist_take.
      rewrite (Hnil l) by done. by destruct n.
Qed.

Lemma Forall2_lookup_NoDup {A B} (l : list B) (g : A → B) kept out :
  Forall2 (λ (idx : nat) r, l !! idx = Some (g r)) kept out →
  NoDup kept → NoDup l → NoDup (g <$> out).
Proof.
  intros Hall Hkept Hl. induction Hall as [|idx r kept out Hidx Hall IH]; csimpl.
  - constructor.
  - apply NoDup_cons in Hkept as [Hnotin Hkept]. constructor; [|by apply IH].
    intros (r' & Heq & Hr')%list_elem_of_fmap.
    apply list_elem_of_lookup_1 in Hr' as [i Hi].
    destruct (Forall2_lookup_r _ _ _ _ _ Hall Hi) as (idx' & Hidx' & Hl').
    rewrite <- Heq in Hl'. rewrite (NoDup_lookup _ _ _ _ Hl Hidx Hl') in Hnotin.
    apply Hnotin. by eapply list_elem_of_lookup_2.
Qed.

Lemma NoDup_fmap_finer {A B C} (f : A → B) (g : A → C) l :
  (∀ x y, g x = g y → f x = f y) → NoDup (f <$> l) → NoDup (g <$> l).
Proof.
  intros Hfg. induction l as [|a l IH]; csimpl; [constructor|].
  rewrite !NoDup_cons. intros [Hnotin Hl]. split; [|by apply IH].
  intros (y & Heq & Hy)%list_elem_of_fmap. apply Hnotin, list_elem_of_fmap.
  exists y. split; [by apply Hfg|done].
Qed.

Lemma slice_to_all {A} (l : list A) n :
  (length l ≤ n)%nat → slice_to (Z.of_nat n) l = l.
Proof.
  intros Hn. unfold slice_to. rewrite (proj2 (Z.leb_le _ _)) by lia.
  rewrite Nat2Z.id. by apply take_ge.
Qed.

Section RankerMore.
Context {Vocabulary Vector : Type}.
Context (fit : list string → Result Vocabulary).
Context (transform : Vocabulary → string → Vector).
Context (cosine_similarity : Vector → Vector → Q).
Context (argsort : list Q → list nat).
Implicit Types (self m : @KeywordMatcher Vocabulary Vector).

Lemma find_matches_loop_run self query_text sims min_score top_indices :
  Forall (λ idx, is_Some (sims !! idx)
                 ∧ is_Some (self_icc_sections self !! idx)) top_indices →
  ∀ results,
    find_matches_loop self query_text sims min_score top_indices results
    = Ok (results ++ omap (match_at self query_text sims min_score) top_indices).
Proof.
  induction 1 as [|idx top_indices [[score Hs] [section Hsec]] _ IH];
    intros results; simpl.
  - by rewrite app_nil_r.
  - unfold match_at at 1. rewrite Hs, Hsec.
    destruct (Qlt_bool score min_score); [apply IH|].
    by rewrite IH, <- app_assoc.
Qed.

Lemma initialized_lengths self code db m csi_code :
  (initialize fit transform self code db).2 = Ok m →
  length (similarities transform cosine_similarity m csi_code)
  = length (self_icc_sections m).
Proof.
  intros (vocabulary & Hvoc & _ & _ & Hvec)%initialize_inv.
  unfold similarities. rewrite Hvoc, Hvec. by rewrite !length_fmap.
Qed.

Lemma find_matches_run self code db m csi_code top_n min_score :
  argsort_contract argsort →
  (initialize fit transform self code db).2 = Ok m →
  let sims := similarities transform cosine_similarity m csi_code in
  find_matches transform cosine_similarity argsort m csi_code top_n min_score
  = Ok (omap (match_at m (_create_csi_query csi_code) sims min_score)
          (slice_to top_n (reversed (argsort sims)))).
Proof.
  intros Hc Hinit sims.
  pose proof (initialized_lengths _ _ _ _ csi_code Hinit) as Hlen. fold sims in Hlen.
  destruct (initialize_inv _ _ _ _ _ _ Hinit) as (vocabulary & Hvoc & _ & _ & Hvec).
  unfold find_matches. subst sims. unfold similarities in *.
  rewrite Hvec, Hvoc in *.
  set (sims := cosine_similarity _ <$> _) in *.
  rewrite find_matches_loop_run; [done|].
  apply Forall_forall. intros idx Hidx.
  destruct (slice_to_take top_n (reversed (argsort sims))) as [k Hk].
  rewrite Hk in Hidx. apply (sublist_subseteq _ _ (sublist_take _ _)) in Hidx.
  unfold reversed in Hidx. rewrite elem_of_reverse, argsort_elem_of in Hidx by done.
  split; apply lookup_lt_is_Some; [done|]. by rewrite <- Hlen.
Qed.

Lemma initialize_sections self code db m :
  (initialize fit transform self code db).2 = Ok m →
  self_icc_sections m = corpus_sections code db.
Proof.
  unfold initialize.
  destruct (corpus_sections _ _) as [|sec rows] eqn:Hrows; [done|].
  destruct (fit _) as [vocabulary|e] eqn:Hfit; [|done].
  simpl. by intros [= <-].
Qed.

Lemma match_at_is_Some m query_text sims min_score idx :
  is_Some (match_at m query_text sims min_score idx)
  ↔ ∃ score, sims !! idx = Some score ∧ (min_score <= score)%Q
             ∧ is_Some (self_icc_sections m !! idx).
Proof.
  unfold match_at. destruct (sims !! idx) as [score|]; [|split; [by intros []|by intros (? & ? & _)]].
  destruct (self_icc_sections m !! idx) as [section|].
  - destruct (Qlt_bool score min_score) eqn:E.
    + apply Qlt_bool_true in E. split; [by intros []|]. intros (x & [= <-] & Hle & _). lra.
    + apply Qlt_bool_false in E. split; [|by eexists]. intros _. exists score. by split_and!.
  - split; [by intros []|]. by intros (? & _ & _ & []).
Qed.

Lemma match_at_raise m query_text sims min1 min2 idx :
  (min1 <= min2)%Q →
  match_at m query_text sims min2 idx
  = match match_at m query_text sims min1 idx with
    | Some r => if Qle_bool min2 (MatchResult.score r) then Some r else None
    | None => None
    end.
Proof.
  intros Hle. unfold match_at.
  destruct (sims !! idx) as [score|]; [|done].
  destruct (self_icc_sections m !! idx) as [section|]; [|done].
  destruct (Qlt_bool score min2) eqn:E2.
  - apply Qlt_bool_true in E2. destruct (Qlt_bool score min1); [done|]. simpl.
    by rewrite (proj2 (Qle_bool_false min2 score)).
  - apply Qlt_bool_false in E2.
    rewrite (proj2 (Qlt_bool_false score min1)) by lra. simpl.
    by rewrite (proj2 (Qle_bool_iff min2 score)).
Qed.

(** X10. Cutting to [top_n] before filtering by score loses nothing: for a
    count [top_n], the results are the first [top_n] of the results an
    uncut search returns for the same [min_score]. *)
Theorem find_matches_cut_after_filter self code db m csi_code top_n min_score :
  argsort_contract argsort →
  (initialize fit transform self code db).2 = Ok m →
  0 ≤ top_n →
  ∃ results candidates,
    find_matches transform cosine_similarity argsort m csi_code top_n min_score
    = Ok results
    ∧ find_matches transform cosine_similarity argsort m csi_code
        (Z.of_nat (length (self_icc_sections m))) min_score
      = Ok candidates
    ∧ results = take (Z.to_nat top_n) candidates.
Proof.
  intros Hc Hinit Hn.
  pose proof (initialized_lengths _ _ _ _ csi_code Hinit) as Hlen.
  rewrite !(find_matches_run _ _ _ _ _ _ _ Hc Hinit). cbv zeta.
  set (sims := similarities transform cosine_similarity m csi_code) in *.
  do 2 eexists. split_and!; [done..|].
  rewrite slice_to_all
    by (unfold reversed; rewrite length_reverse, argsort_length, Hlen by done; lia).
  unfold slice_to. rewrite (proj2 (Z.leb_le _ _)) by lia.
  apply (omap_take_sorted (flip (ascending sims))).
  - apply StronglySorted_reversed. by destruct (Hc sims).
  - intros i j (x & y & Hj & Hi & Hxy).
    rewrite !match_at_is_Some. intros (score & Hscore & Hle & _).
    exists y. split_and!; [done| |].
    + rewrite Hj in Hscore. injection Hscore as ->. lra.
    + apply lookup_lt_is_Some. rewrite <- Hlen. by eapply lookup_lt_Some.
Qed.

(** X11. Raising [min_score] filters the results: those for the higher
    threshold are, in the same order, the results for the lower one whose
    score reaches it. *)
Theorem find_matches_min_score_filter self code db m csi_code top_n min1 min2 :
  argsort_contract argsort →
  (initialize fit transform self code db).2 = Ok m →
  (min1 <= min2)%Q →
  ∃ results1 results2,
    find_matches transform cosine_similarity argsort m csi_code top_n min1
    = Ok results1
    ∧ find_matches transform cosine_similarity argsort m csi_code top_n min2
      = Ok results2
    ∧ results2 = filter (λ r, Qle_bool min2 (MatchResult.score r)) results1.
Proof.
  intros Hc Hinit Hle.
  rewrite !(find_matches_run _ _ _ _ _ _ _ Hc Hinit). cbv zeta.
  set (sims := similarities transform cosine_similarity m csi_code).
  do 2 eexists. split_and!; [done..|].
  induction (slice_to top_n (reversed (argsort sims))) as [|idx l IH]; [done|].
  csimpl. rewrite (match_at_raise _ _ _ min1 min2) by done.
  destruct (match_at m _ sims min1 idx) as [r|]; [|done].
  destruct (Qle_bool min2 (MatchResult.score r)) eqn:E.
  - rewrite filter_cons_True by (by rewrite E). by rewrite IH.
  - rewrite filter_cons_False by (rewrite E; simpl; tauto). done.
Qed.

Lemma find_matches_sections self code db m csi_code top_n min_score :
  argsort_contract argsort →
  (initialize fit transform self code db).2 = Ok m →
  ∃ results,
    find_matches transform cosine_similarity argsort m csi_code top_n min_score
    = Ok results
    ∧ Forall (λ r, MatchResult.section r ∈ corpus_sections code db) results
    ∧ (0 ≤ top_n → Z.of_nat (length results) ≤ top_n)
    ∧ (NoDup (ICCSection.id <$> icc_sections (store db)) →
       NoDup (match_key csi_code <$> results)
       ∧ NoDup (MatchResult.section <$> results)).
Proof.
  intros Hc Hinit.
  destruct (find_matches_spec fit transform cosine_similarity argsort
              self code db m csi_code top_n min_score Hc Hinit)
    as (kept & results & Hrun & Hsub & Hall & _).
  pose proof (initialize_sections _ _ _ _ Hinit) as Hsections.
  exists results. split; [done|]. split_and!.
  - rewrite <- Hsections. apply Forall_forall. intros r Hr.
    apply list_elem_of_lookup_1 in Hr as [i Hi].
    destruct (Forall2_lookup_r _ _ _ _ _ Hall Hi) as (idx & _ & _ & Hsec & _).
    by eapply list_elem_of_lookup_2.
  - intros Hn. rewrite <- (Forall2_length _ _ _ Hall).
    etrans; [|by apply (slice_to_length top_n
      (reversed (argsort (similarities transform cosine_similarity m csi_code))))].
    apply inj_le, sublist_length, Hsub.
  - intros Hids.
    assert (NoDup kept) as Hkept.
    { eapply sublist_NoDup; [|done].
      destruct (slice_to_take top_n (reversed (argsort
                  (similarities transform cosine_similarity m csi_code)))) as [k ->].
      eapply sublist_NoDup; [|apply sublist_take].
      destruct (Hc (similarities transform cosine_similarity m csi_code)) as [Hp _].
      unfold reversed. rewrite reverse_Permutation, Hp. apply NoDup_seq. }
    assert (NoDup (ICCSection.id <$> self_icc_sections m)) as Hcorpus.
    { rewrite Hsections. eapply sublist_NoDup; [done|].
      apply fmap_sublist, corpus_sections_sublist. }
    assert (NoDup (ICCSection.id ∘ MatchResult.section <$> results)) as Hres.
    { apply (Forall2_lookup_NoDup (ICCSection.id <$> self_icc_sections m) _ kept);
        [|done..].
      eapply Forall2_impl; [done|]. intros idx r (_ & Hsec & _). simpl.
      by rewrite list_lookup_fmap, Hsec. }
    split.
    + eapply NoDup_fmap_finer; [|exact Hres]. intros x y [= Heq]. exact Heq.
    + rewrite list_fmap_compose in Hres. by apply NoDup_fmap_1 in Hres.
Qed.

(** X12. Where the sections of the database have distinct primary keys,
    the results of [find_matches] are pairwise distinct sections of the
    corpus of [initialize], so no two results give the same (QueryCode,
    CodeSection) pair. *)
Theorem find_matches_distinct self code db m csi_code top_n min_score :
  argsort_contract argsort →
  (initialize fit transform self code db).2 = Ok m →
  NoDup (ICCSection.id <$> icc_sections (store db)) →
  ∃ results,
    find_matches transform cosine_similarity argsort m csi_code top_n min_score
    = Ok results
    ∧ NoDup (match_key csi_code <$> results)
    ∧ NoDup (MatchResult.section <$> results)
    ∧ Forall (λ r, MatchResult.section r ∈ corpus_sections code db) results.
Proof.
  intros Hc Hinit Hids.
  destruct (find_matches_sections self code db m csi_code top_n min_score Hc Hinit)
    as (results & Hrun & Hall & _ & Hdistinct).
  exists results. destruct (Hdistinct Hids). by split_and!.
Qed.

(** X9. A successful [initialize] leaves the session as it was and the
    matcher with, in storage order, exactly the sections of the database
    whose document exists and has the requested code (any document when no
    code is asked for), a fitted vectorizer, and one vector per section: the
    vector of its searchable text. *)
Theorem initialize_corpus self code db m :
  (initialize fit transform self code db).2 = Ok m →
  (initialize fit transform self code db).1 = db
  ∧ self_icc_sections m `sublist_of` icc_sections (store db)
  ∧ (∀ section,
       section ∈ self_icc_sections m
       ↔ section ∈ icc_sections (store db)
         ∧ ∃ d, d ∈ icc_documents (store db)
                ∧ ICCSection.document_id section = ICCDocument.id d
                ∧ ∀ c, truthy_str code = Some c → ICCDocument.code d = c)
  ∧ ∃ vocabulary vectors,
      self_vectorizer m = Some vocabulary
      ∧ self_icc_vectors m = Some vectors
      ∧ vectors = transform vocabulary
                    <$> (_create_searchable_text <$> self_icc_sections m)
      ∧ length vectors = length (self_icc_sections m).
Proof.
  intros Hinit. pose proof (initialize_sections _ _ _ _ Hinit) as Hsections.
  split; [apply read_only_initialize|].
  split; [rewrite Hsections; apply corpus_sections_sublist|].
  split.
  - intros section. rewrite Hsections. unfold corpus_sections.
    rewrite list_elem_of_filter, Exists_exists. unfold passes.
    split.
    + intros [(d & Hd & Hdoc & Hcode) Hsec]. split; [done|].
      exists d. split_and!; [done..|]. intros c Hc. rewrite Hc in Hcode.
      destruct Hcode as [?|[= ?]]; done.
    + intros [Hsec (d & Hd & Hdoc & Hcode)]. split; [|done].
      exists d. split_and!; [done..|].
      destruct (truthy_str code) as [c|]; [right|by left]. by rewrite (Hcode c).
  - destruct (initialize_inv _ _ _ _ _ _ Hinit) as (vocabulary & Hvoc & _ & _ & Hvec).
    exists vocabulary, (transform vocabulary
                          <$> (_create_searchable_text <$> self_icc_sections m)).
    split_and!; [done..|]. by rewrite !length_fmap.
Qed.

End RankerMore.

Lemma find_matches_cut_after_filter_witness :
  ∃ results candidates,
    find_matches bow_transform jaccard insertion_argsort sample_matcher csi_22_40
      2 0.1 = Ok results
    ∧ find_matches bow_transform jaccard insertion_argsort sample_matcher csi_22_40
        (Z.of_nat (length (self_icc_sections sample_matcher))) 0.1 = Ok candidates
    ∧ results = take (Z.to_nat 2) candidates.
Proof.
  apply (find_matches_cut_after_filter bow_fit bow_transform jaccard
           insertion_argsort KeywordMatcher_init (Some "IPC") sample_session
           sample_matcher csi_22_40 2 0.1).
  - apply insertion_argsort_contract.
  - exact sample_matcher_initialized.
  - lia.
Defined.

Lemma find_matches_min_score_filter_witness :
  ∃ results1 results2,
    find_matches bow_transform jaccard insertion_argsort sample_matcher csi_22_40
      10 0.1 = Ok results1
    ∧ find_matches bow_transform jaccard insertion_argsort sample_matcher csi_22_40
        10 0.3 = Ok results2
    ∧ results2 = filter (λ r, Qle_bool 0.3 (MatchResult.score r)) results1.
Proof.
  apply (find_matches_min_score_filter bow_fit bow_transform jaccard
           insertion_argsort KeywordMatcher_init (Some "IPC") sample_session
           sample_matcher csi_22_40 10 0.1 0.3).
  - apply insertion_argsort_contract.
  - exact sample_matcher_initialized.
  - by vm_compute.
Defined.

Lemma find_matches_distinct_witness :
  ∃ results,
    find_matches bow_transform jaccard insertion_argsort sample_matcher csi_22_40
      10 0.1 = Ok results
    ∧ NoDup (match_key csi_22_40 <$> results)
    ∧ NoDup (MatchResult.section <$> results)
    ∧ Forall (λ r, MatchResult.section r ∈ corpus_sections (Some "IPC") sample_session)
        results.
Proof.
  apply (find_matches_distinct bow_fit bow_transform jaccard
           insertion_argsort KeywordMatcher_init (Some "IPC") sample_session
           sample_matcher csi_22_40 10 0.1).
  - apply insertion_argsort_contract.
  - exact sample_matcher_initialized.
  - apply (bool_decide_unpack _). by vm_compute.
Defined.

Lemma initialize_corpus_witness :
  self_icc_sections sample_matcher `sublist_of` icc_sections (store sample_session)
  ∧ ∃ vocabulary vectors,
      self_vectorizer sample_matcher = Some vocabulary
      ∧ self_icc_vectors sample_matcher = Some vectors
      ∧ vectors = bow_transform vocabulary
                    <$> (_create_searchable_text <$> self_icc_sections sample_matcher)
      ∧ length vectors = length (self_icc_sections sample_matcher).
Proof.
  destruct (initialize_corpus bow_fit bow_transform KeywordMatcher_init (Some "IPC")
              sample_session sample_matcher) as (_ & Hsub & _ & Hvec).
  - exact sample_matcher_initialized.
  - by split.
Defined.

(** ** The curated lookup, the search and the mapping handler *)

Lemma filter_sublist_impl {A} (P Q : A → Prop) `{!∀ x, Decision (P x)}
    `{!∀ x, Decision (Q x)} (l : list A) :
  (∀ x, P x → Q x) → filter P l `sublist_of` filter Q l.
Proof.
  intros HPQ. induction l as [|x l IH]; [done|].
  rewrite !filter_cons. destruct (decide (P x)) as [HP|HP].
  - rewrite decide_True by auto. by apply sublist_skip.
  - destruct (decide (Q x)); [by apply sublist_cons|done].
Qed.

Lemma head_filter_None {A} (P : A → Prop) `{!∀ x, Decision (P x)} (l : list A) :
  head (filter P l) = None ↔ Forall (λ x, ¬ P x) l.
Proof.
  rewrite head_None. split.
  - intros Hnil. apply Forall_forall. intros x Hx HP.
    assert (x ∈ filter P l) as Hin by (by apply list_elem_of_filter).
    rewrite Hnil in Hin. by apply elem_of_nil in Hin.
  - intros Hall. induction Hall as [|x l Hx _ IH]; [done|].
    by rewrite filter_cons_False.
Qed.

Lemma head_filter_Some_elem {A} (P : A → Prop) `{!∀ x, Decision (P x)} (l : list A) x :
  head (filter P l) = Some x → x ∈ l ∧ P x.
Proof.
  intros Hhd. assert (x ∈ filter P l) as Hin.
  { destruct (filter P l); [done|]. injection Hhd as ->. left. }
  by apply list_elem_of_filter in Hin as [? ?].
Qed.

(** X13. The filters of the curated lookup only narrow it: the filtered
    sections are, in the same order, among the unfiltered ones, which are
    among the rows of the table; an empty state, the year 0 and an empty
    document code filter nothing; and every section returned belongs to a
    document that meets each filter given. *)
Theorem get_icc_sections_for_csi_code_filters (csi_code : string)
    (state : option string) (year : option Z) (icc_document : option string)
    (s : Session) :
  ∃ filtered unfiltered,
    get_icc_sections_for_csi_code csi_code state year icc_document s
    = (s, Ok filtered)
    ∧ get_icc_sections_for_csi_code csi_code None None None s = (s, Ok unfiltered)
    ∧ get_icc_sections_for_csi_code csi_code (Some "") (Some 0) (Some "") s
      = (s, Ok unfiltered)
    ∧ filtered `sublist_of` unfiltered
    ∧ unfiltered `sublist_of` icc_sections (store s)
    ∧ Forall (λ section,
        ∃ d, d ∈ icc_documents (store s)
             ∧ ICCSection.document_id section = ICCDocument.id d
             ∧ (∀ x, truthy_str state = Some x → ICCDocument.state d = Some x)
             ∧ (∀ y, truthy_int year = Some y → ICCDocument.year d = y)
             ∧ (∀ c, truthy_str icc_document = Some c → ICCDocument.code d = c))
        filtered.
Proof.
  unfold get_icc_sections_for_csi_code, query. do 2 eexists.
  split_and!; [done..| | |].
  - apply filter_sublist_impl. intros section [Hm Hd]. split; [done|].
    apply Exists_exists in Hd as (d & Hd & Hdoc & _).
    apply Exists_exists. exists d. split_and!; [done..|by left|by left|by left].
  - apply sublist_filter.
  - apply Forall_forall. intros section [[_ Hd] _]%list_elem_of_filter.
    apply Exists_exists in Hd as (d & Hd & Hdoc & Hstate & Hyear & Hcode).
    exists d. unfold passes in *. split_and!; [done..| | |].
    + intros x Hx. rewrite Hx in Hstate. by destruct Hstate.
    + intros y Hy. rewrite Hy in Hyear. by destruct Hyear as [?|[= ?]].
    + intros c Hc. rewrite Hc in Hcode. by destruct Hcode as [?|[= ?]].
Qed.

Lemma search_csi_to_icc_cases code state year doc s :
  (get_csi_code code s = (s, Ok None)
   ∧ search_csi_to_icc code state year doc s = (s, Ok None))
  ∨ ∃ csi curated,
      get_csi_code code s = (s, Ok (Some csi))
      ∧ get_icc_sections_for_csi_code code state year doc s = (s, Ok curated)
      ∧ search_csi_to_icc code state year doc s
        = (s, Ok (Some (SearchResult.mk csi curated (Z.of_nat (length curated)) None))).
Proof.
  unfold search_csi_to_icc, bind, get_csi_code, get_icc_sections_for_csi_code,
    query, ret. simpl.
  destruct (head _) as [csi|]; [right|by left].
  exists csi. eexists. split_and!; reflexivity.
Qed.

Lemma get_csi_code_Some code s csi :
  get_csi_code code s = (s, Ok (Some csi)) →
  csi ∈ csi_codes (store s) ∧ CSICode.code csi = Some code.
Proof. unfold get_csi_code, query. intros [= H]. by apply head_filter_Some_elem in H. Qed.

Lemma get_csi_code_None code s :
  get_csi_code code s = (s, Ok None) →
  Some code ∉ CSICode.code <$> csi_codes (store s).
Proof.
  unfold get_csi_code, query. intros [= H]. apply head_filter_None in H.
  intros (c & Hc & Hin)%list_elem_of_fmap.
  by apply (proj1 (Forall_forall _ _) H c Hin).
Qed.

Section OrchestratorMore.
Context {Vocabulary Vector : Type}.
Context (fit : list string → Result Vocabulary).
Context (transform : Vocabulary → string → Vector).
Context (cosine_similarity : Vector → Vector → Q).
Context (argsort : list Q → list nat).

Lemma search_codes_not_found req s :
  get_csi_code (SearchRequest.csi_code req) s = (s, Ok None) →
  search_codes fit transform cosine_similarity argsort req s
  = (s, Raise (HTTPException 404 "CSI code not found")).
Proof.
  intros Hnone.
  destruct (search_csi_to_icc_cases (SearchRequest.csi_code req)
              (SearchRequest.state req) (SearchRequest.year req)
              (SearchRequest.icc_document req) s)
    as [[_ Hrun]|(csi & curated & Hcsi & _)]; [|congruence].
  unfold search_codes, bind. by rewrite Hrun.
Qed.

(** X14. A search ends in one of two ways: the error 404 "CSI code not
    found", exactly when no row of the table has the requested code, or a
    result for a row of the table with that code, whose [total_results] is
    the number of its sections and whose source is one of the three
    tags. *)
Theorem search_codes_outcome (req : SearchRequest.t) (s : Session) :
  match (search_codes fit transform cosine_similarity argsort req s).2 with
  | Raise e =>
      e = HTTPException 404 "CSI code not found"
      ∧ Some (SearchRequest.csi_code req) ∉ CSICode.code <$> csi_codes (store s)
  | Ok r =>
      SearchResult.csi_code r ∈ csi_codes (store s)
      ∧ CSICode.code (SearchResult.csi_code r) = Some (SearchRequest.csi_code req)
      ∧ SearchResult.total_results r
        = Z.of_nat (length (SearchResult.icc_sections r))
      ∧ SearchResult.source r
        ∈ [Some "manual_mappings"; Some "keyword_matching"; Some "no_mappings"]
  end.
Proof.
  destruct (search_csi_to_icc_cases (SearchRequest.csi_code req)
              (SearchRequest.state req) (SearchRequest.year req)
              (SearchRequest.icc_document req) s)
    as [[Hnone Hrun]|(csi & curated & Hcsi & _ & Hrun)].
  - rewrite (search_codes_not_found _ _ Hnone). simpl. split; [done|].
    by apply get_csi_code_None.
  - apply get_csi_code_Some in Hcsi as [Hin Hcode].
    rewrite (search_codes_run fit transform cosine_similarity argsort req s _
               (f_equal snd Hrun)). simpl.
    destruct curated as [|section curated]; simpl.
    + destruct (search_codes_matches _ _ _ _ _ _ _).2 as [matches|e]; simpl;
        (split_and!; [done|done|by rewrite ?length_fmap|set_solver]).
    + split_and!; [done..|set_solver].
Qed.

Lemma search_codes_matches_inv req csi s matches :
  (search_codes_matches fit transform cosine_similarity argsort req csi s).2
  = Ok matches →
  ∃ m, (initialize fit transform KeywordMatcher_init
          (SearchRequest.icc_document req) s).2 = Ok m
       ∧ find_matches transform cosine_similarity argsort m csi 10 0.1 = Ok matches.
Proof.
  unfold search_codes_matches, bind, lift.
  destruct (initialize _ _ _ _ s) as [s' [m|e]]; simpl; [|done].
  intros H. by exists m.
Qed.

(** X15. The suggestions of the fallback: a result tagged
    [keyword_matching] has at most ten sections, all of the corpus of the
    requested document, pairwise distinct where the sections of the database
    have distinct primary keys, and the curated lookup was empty. *)
Theorem search_codes_suggestions (req : SearchRequest.t) (s : Session)
    (r : SearchResult.t) :
  argsort_contract argsort →
  (search_codes fit transform cosine_similarity argsort req s).2 = Ok r →
  SearchResult.source r = Some "keyword_matching" →
  (length (SearchResult.icc_sections r) ≤ 10)%nat
  ∧ Forall (λ section,
      section ∈ corpus_sections (SearchRequest.icc_document req) s)
      (SearchResult.icc_sections r)
  ∧ (NoDup (ICCSection.id <$> icc_sections (store s)) →
     NoDup (SearchResult.icc_sections r))
  ∧ get_icc_sections_for_csi_code (SearchRequest.csi_code req)
      (SearchRequest.state req) (SearchRequest.year req)
      (SearchRequest.icc_document req) s = (s, Ok []).
Proof.
  intros Hc Hr Hsource.
  destruct (search_csi_to_icc_cases (SearchRequest.csi_code req)
              (SearchRequest.state req) (SearchRequest.year req)
              (SearchRequest.icc_document req) s)
    as [[Hnone Hrun]|(csi & curated & Hcsi & Hcur & Hrun)].
  { by rewrite (search_codes_not_found _ _ Hnone) in Hr. }
  rewrite (search_codes_run fit transform cosine_similarity argsort req s _
             (f_equal snd Hrun)) in Hr. simpl in Hr.
  destruct curated as [|section curated]; simpl in Hr;
    [|injection Hr as <-; discriminate Hsource].
  destruct (search_codes_matches _ _ _ _ _ _ _).2 as [matches|e] eqn:Hmatches;
    [|injection Hr as <-; discriminate Hsource].
  injection Hr as <-. simpl.
  apply search_codes_matches_inv in Hmatches as (m & Hinit & Hfind).
  destruct (find_matches_sections fit transform cosine_similarity argsort
              _ _ _ m csi 10 0.1 Hc Hinit)
    as (results & Hrun' & Hall & Hlen & Hdistinct).
  rewrite Hfind in Hrun'. injection Hrun' as <-.
  split_and!; [|by apply Forall_fmap|apply Hdistinct|done].
  rewrite length_fmap. lia.
Qed.

(** X16. The fallback does not see the state and year filters: for a code
    without any curated section, the search with these filters is the search
    without them. *)
Theorem search_codes_fallback_unfiltered (code : string) (state : option string)
    (year : option Z) (icc_document : option string) (s : Session) :
  get_icc_sections_for_csi_code code None None None s = (s, Ok []) →
  search_codes fit transform cosine_similarity argsort
    (SearchRequest.mk code state year icc_document) s
  = search_codes fit transform cosine_similarity argsort
      (SearchRequest.mk code None None icc_document) s.
Proof.
  intros Hnone.
  destruct (get_icc_sections_for_csi_code_filters code state year icc_document s)
    as (filtered & unfiltered & Hf & Hu & _ & Hsub & _).
  rewrite Hnone in Hu. injection Hu as <-. apply sublist_nil_r in Hsub as ->.
  destruct (get_icc_sections_for_csi_code_filters code None None icc_document s)
    as (filtered' & unfiltered' & Hf' & Hu' & _ & Hsub' & _).
  rewrite Hnone in Hu'. injection Hu' as <-. apply sublist_nil_r in Hsub' as ->.
  destruct (search_csi_to_icc_cases code state year icc_document s)
    as [[Hcsi Hrun]|(csi & curated & Hcsi & Hcur & Hrun)];
    destruct (search_csi_to_icc_cases code None None icc_document s)
    as [[Hcsi' Hrun']|(csi' & curated' & Hcsi' & Hcur' & Hrun')]; try congruence.
  - by rewrite !search_codes_not_found.
  - rewrite Hf in Hcur. rewrite Hf' in Hcur'. rewrite Hcsi in Hcsi'.
    injection Hcur as <-. injection Hcur' as <-. injection Hcsi' as <-.
    rewrite (search_codes_run fit transform cosine_similarity argsort
               (SearchRequest.mk code state year icc_document) s _
               (f_equal snd Hrun)).
    by rewrite (search_codes_run fit transform cosine_similarity argsort
                  (SearchRequest.mk code None None icc_document) s _
                  (f_equal snd Hrun')).
Qed.

(** X17. Empty filters are no filters: an empty state, the year 0 and an
    empty document code give the search of the request without them. *)
Theorem search_codes_empty_filters (code : string) (state : option string)
    (year : option Z) (icc_document : option string) (s : Session) :
  search_codes fit transform cosine_similarity argsort
    (SearchRequest.mk code state year icc_document) s
  = search_codes fit transform cosine_similarity argsort
      (SearchRequest.mk code (truthy_str state) (truthy_int year)
         (truthy_str icc_document)) s
  ∧ search_codes fit transform cosine_similarity argsort
      (SearchRequest.mk code (Some "") (Some 0) (Some "")) s
    = search_codes fit transform cosine_similarity argsort
        (SearchRequest.mk code None None None) s.
Proof.
  split; [|done].
  by destruct state as [[|? ?]|], year as [[| |]|], icc_document as [[|? ?]|].
Qed.

(** X18. The handler of the curated sections of a code reads only; it
    fails with 404 exactly when the search does, and otherwise the search is
    tagged [manual_mappings] exactly when the handler returns sections, which
    are then the sections of the search. *)
Theorem get_icc_sections_for_csi_search (code : string) (state : option string)
    (year : option Z) (icc_document : option string) (s : Session) :
  (codes.get_icc_sections_for_csi code state year icc_document s).1 = s
  ∧ match (codes.get_icc_sections_for_csi code state year icc_document s).2 with
    | Raise e =>
        e = HTTPException 404 "CSI code not found"
        ∧ (search_codes fit transform cosine_similarity argsort
             (SearchRequest.mk code state year icc_document) s).2 = Raise e
    | Ok sections =>
        ∃ r,
          (search_codes fit transform cosine_similarity argsort
             (SearchRequest.mk code state year icc_document) s).2 = Ok r
          ∧ (SearchResult.source r = Some "manual_mappings" ↔ sections ≠ [])
          ∧ (sections ≠ [] → SearchResult.icc_sections r = sections)
    end.
Proof.
  unfold codes.get_icc_sections_for_csi, bind.
  destruct (search_csi_to_icc_cases code state year icc_document s)
    as [[Hcsi Hrun]|(csi & curated & Hcsi & Hcur & Hrun)]; rewrite Hcsi.
  - simpl. split_and!; [done..|].
    by rewrite (search_codes_not_found (SearchRequest.mk code state year icc_document)).
  - rewrite Hcur. simpl. split; [done|].
    rewrite (search_codes_run fit transform cosine_similarity argsort
               (SearchRequest.mk code state year icc_document) s _
               (f_equal snd Hrun)). simpl.
    eexists. split; [done|]. destruct curated as [|section curated]; simpl.
    + destruct (search_codes_matches _ _ _ _ _ _ _).2; simpl; by split.
    + by split.
Qed.

End OrchestratorMore.

Lemma search_codes_suggestions_witness :
  (length [sec_502_2024; sec_502; sec_501] ≤ 10)%nat
  ∧ Forall (λ section, section ∈ corpus_sections None sample_session)
      [sec_502_2024; sec_502; sec_501].
Proof.
  destruct (search_codes_suggestions bow_fit bow_transform jaccard insertion_argsort
              (SearchRequest.mk "22 40 00" None None None) sample_session
              (SearchResult.mk csi_22_40 [sec_502_2024; sec_502; sec_501] 3
                 (Some "keyword_matching")))
    as (Hlen & Hall & _).
  - apply insertion_argsort_contract.
  - vm_compute. reflexivity.
  - reflexivity.
  - by split.
Defined.

Lemma search_codes_fallback_unfiltered_witness :
  search_codes bow_fit bow_transform jaccard insertion_argsort
    (SearchRequest.mk "22 40 00" (Some "CO") (Some 2030) (Some "IPC")) sample_session
  = search_codes bow_fit bow_transform jaccard insertion_argsort
      (SearchRequest.mk "22 40 00" None None (Some "IPC")) sample_session.
Proof.
  apply (search_codes_fallback_unfiltered bow_fit bow_transform jaccard
           insertion_argsort "22 40 00" (Some "CO") (Some 2030) (Some "IPC")
           sample_session).
  vm_compute. reflexivity.
Defined.

(** *** The mapping handler *)

Lemma get_csi_code_by_id_run csi_id s :
  ∃ csi, get_csi_code_by_id csi_id s = (s, Ok csi)
         ∧ (csi = None ↔ csi_id ∉ CSICode.id <$> csi_codes (store s)).
Proof.
  unfold get_csi_code_by_id, query. eexists. split; [done|].
  rewrite head_filter_None, Forall_forall, list_elem_of_fmap. split.
  - intros H (c & Hc & Hin). by apply (H c).
  - intros H c Hin Hc. apply H. by exists c.
Qed.

Lemma get_icc_section_run section_id s :
  ∃ section, get_icc_section section_id s = (s, Ok section)
             ∧ (section = None ↔ section_id ∉ ICCSection.id <$> icc_sections (store s)).
Proof.
  unfold get_icc_section, query. eexists. split; [done|].
  rewrite head_filter_None, Forall_forall, list_elem_of_fmap. split.
  - intros H (c & Hc & Hin). by apply (H c).
  - intros H c Hin Hc. apply H. by exists c.
Qed.

Lemma create_mapping_run csi_code_id icc_section_id relevance notes s :
  pending s = [] →
  let rows := csi_icc_mappings (store s) in
  create_mapping csi_code_id icc_section_id relevance notes s
  = if bool_decide ((csi_code_id, icc_section_id) ∈ mapping_key <$> rows)
    then (mkSession (store s) [] (autoflush s)
            (journal s ++ [WAdd (CSIICCMapping.mk None csi_code_id icc_section_id
                                   relevance notes None); WCommit]),
          Raise IntegrityError)
    else (mkSession
            (mkDatabase (csi_codes (store s)) (icc_documents (store s))
               (icc_sections (store s))
               (rows ++ [CSIICCMapping.mk (Some (next_id rows)) csi_code_id
                           icc_section_id relevance notes None]))
            [] (autoflush s)
            (journal s ++ [WAdd (CSIICCMapping.mk None csi_code_id icc_section_id
                                   relevance notes None); WCommit]),
          Ok tt).
Proof.
  intros Hpending rows. unfold create_mapping, bind, db_add, db_commit. simpl.
  rewrite Hpending. simpl. fold rows. unfold mapping_key at 1. simpl.
  case_bool_decide; simpl; rewrite <- app_assoc.
  - by rewrite bool_decide_eq_true_2.
  - by rewrite bool_decide_eq_false_2.
Qed.

(** X19. The mapping handler, on a session without uncommitted rows: it
    fails with 404 "CSI code not found" when no CSI code has the given id,
    with 404 "ICC section not found" when the CSI code exists and no section
    has the given id, in both cases without touching the session; for
    existing ids, it raises [IntegrityError] and stores nothing when the
    pair is mapped already, and otherwise appends one row, with a new
    primary key and the pair, relevance and notes given, leaving the other
    tables as they were. *)
Theorem router_create_mapping_outcome (mapping : CSIICCMappingCreate.t) (s : Session) :
  pending s = [] →
  let csi_id := CSIICCMappingCreate.csi_code_id mapping in
  let section_id := CSIICCMappingCreate.icc_section_id mapping in
  let rows := csi_icc_mappings (store s) in
  let out := codes.create_mapping mapping s in
  (csi_id ∉ CSICode.id <$> csi_codes (store s) →
     out = (s, Raise (HTTPException 404 "CSI code not found")))
  ∧ (csi_id ∈ CSICode.id <$> csi_codes (store s) →
     section_id ∉ ICCSection.id <$> icc_sections (store s) →
     out = (s, Raise (HTTPException 404 "ICC section not found")))
  ∧ (csi_id ∈ CSICode.id <$> csi_codes (store s) →
     section_id ∈ ICCSection.id <$> icc_sections (store s) →
     (csi_id, section_id) ∈ mapping_key <$> rows →
     out.2 = Raise IntegrityError ∧ store out.1 = store s ∧ pending out.1 = [])
  ∧ (csi_id ∈ CSICode.id <$> csi_codes (store s) →
     section_id ∈ ICCSection.id <$> icc_sections (store s) →
     (csi_id, section_id) ∉ mapping_key <$> rows →
     out.2 = Ok tt ∧ pending out.1 = []
     ∧ csi_codes (store out.1) = csi_codes (store s)
     ∧ icc_documents (store out.1) = icc_documents (store s)
     ∧ icc_sections (store out.1) = icc_sections (store s)
     ∧ ∃ row, csi_icc_mappings (store out.1) = rows ++ [row]
              ∧ CSIICCMapping.id row = Some (next_id rows)
              ∧ mapping_key row = (csi_id, section_id)
              ∧ CSIICCMapping.relevance row = CSIICCMappingCreate.relevance mapping
              ∧ CSIICCMapping.notes row = CSIICCMappingCreate.notes mapping).
Proof.
  intros Hpending csi_id section_id rows out. subst out.
  unfold codes.create_mapping, bind. fold csi_id section_id.
  destruct (get_csi_code_by_id_run csi_id s) as (csi & -> & Hcsi).
  destruct (get_icc_section_run section_id s) as (section & Hsection_run & Hsection).
  destruct csi as [csi|].
  - assert (csi_id ∈ CSICode.id <$> csi_codes (store s)) as Hin.
    { destruct (decide (csi_id ∈ CSICode.id <$> csi_codes (store s))) as [|Hn];
        [done|]. by pose proof (proj2 Hcsi Hn). }
    rewrite Hsection_run. destruct section as [section|].
    + assert (section_id ∈ ICCSection.id <$> icc_sections (store s)) as Hin'.
      { destruct (decide (section_id ∈ ICCSection.id <$> icc_sections (store s)))
          as [|Hn]; [done|]. by pose proof (proj2 Hsection Hn). }
      rewrite create_mapping_run by done. fold rows.
      split_and!; [done|done| |].
      * intros _ _ Hkey. by rewrite bool_decide_eq_true_2.
      * intros _ _ Hkey. rewrite bool_decide_eq_false_2 by done. simpl.
        split_and!; [done..|]. eexists. by split_and!.
    + pose proof (proj1 Hsection eq_refl). by split_and!.
  - pose proof (proj1 Hcsi eq_refl). by split_and!.
Qed.

Lemma router_create_mapping_outcome_witness :
  (codes.create_mapping (CSIICCMappingCreate.mk (Some "primary") None 7 1)
     sample_session).2 = Ok tt
  ∧ (codes.create_mapping (CSIICCMappingCreate.mk (Some "primary") None 7 1)
       curated_session).2 = Raise IntegrityError
  ∧ codes.create_mapping (CSIICCMappingCreate.mk (Some "primary") None 9 1)
      sample_session
    = (sample_session, Raise (HTTPException 404 "CSI code not found")).
Proof.
  pose proof (router_create_mapping_outcome
                (CSIICCMappingCreate.mk (Some "primary") None 7 1) sample_session
                eq_refl) as (_ & _ & _ & Hok).
  pose proof (router_create_mapping_outcome
                (CSIICCMappingCreate.mk (Some "primary") None 7 1) curated_session
                eq_refl) as (_ & _ & Hdup & _).
  pose proof (router_create_mapping_outcome
                (CSIICCMappingCreate.mk (Some "primary") None 9 1) sample_session
                eq_refl) as (Hmissing & _).
  split_and!.
  - apply Hok; apply (bool_decide_unpack _); by vm_compute.
  - apply Hdup; apply (bool_decide_unpack _); by vm_compute.
  - apply Hmissing; apply (bool_decide_unpack _); by vm_compute.
Defined.

(** ** The rows of the synthesizer *)

Lemma create_keyword_mappings_loop_rows csi_code relevance_map now matches :
  ∀ created s, ∃ kept,
    create_keyword_mappings_loop csi_code relevance_map now matches created s
    = (mkSession (store s)
         (pending s ++ (new_mapping csi_code relevance_map now <$> kept))
         (autoflush s)
         (journal s ++ (WAdd <$> (new_mapping csi_code relevance_map now <$> kept))),
       Ok (created + Z.of_nat (length kept)))
    ∧ kept `sublist_of` matches
    ∧ (autoflush s = false →
       kept = filter (λ m, match_key csi_code m
                           ∉ mapping_key <$> csi_icc_mappings (store s)) matches)
    ∧ Forall (λ m, match_key csi_code m ∉ mapping_key <$> visible_mappings s) kept
    ∧ Forall (λ m, match_key csi_code m ∈ mapping_key <$> visible_mappings s
                   ∨ match_key csi_code m ∈ match_key csi_code <$> kept) matches.
Proof.
  induction matches as [|m matches IH]; intros created s; simpl.
  - exists []. simpl. by rewrite !app_nil_r, session_eta, Z.add_0_r.
  - unfold bind.
    destruct (find_existing_mapping_run (CSICode.id csi_code)
                (ICCSection.id (MatchResult.section m)) s)
      as (existing & -> & Hex).
    assert (autoflush s = false →
            visible_mappings s = csi_icc_mappings (store s)) as Hvis.
    { intros Hauto. unfold visible_mappings. by rewrite Hauto, app_nil_r. }
    destruct existing as [row|].
    + destruct (IH created s) as (kept & -> & Hsub & Hfilter & Hfresh & Hall).
      assert (match_key csi_code m ∈ mapping_key <$> visible_mappings s) as Hin.
      { destruct (decide (match_key csi_code m
                            ∈ mapping_key <$> visible_mappings s)) as [|Hn]; [done|].
        by apply Hex in Hn. }
      exists kept. split_and!; [done|by apply sublist_cons| |done|].
      * intros Hauto. rewrite filter_cons_False; [by apply Hfilter|].
        rewrite <- (Hvis Hauto). by intros [].
      * constructor; [by left|done].
    + fold (new_mapping csi_code relevance_map now m).
      unfold db_add at 1.
      set (s1 := mkSession _ _ _ _).
      destruct (IH (created + 1) s1) as (kept & -> & Hsub & Hfilter & Hfresh & Hall).
      assert (∀ k, k ∈ mapping_key <$> visible_mappings s →
                   k ∈ mapping_key <$> visible_mappings s1) as Hmono.
      { intros k. unfold visible_mappings, s1. simpl.
        destruct (autoflush s); rewrite ?fmap_app; set_solver. }
      assert (∀ k, k ∈ mapping_key <$> visible_mappings s1 →
                   k ∈ mapping_key <$> visible_mappings s
                   ∨ k = match_key csi_code m) as Hinv.
      { intros k. unfold visible_mappings, s1. simpl.
        destruct (autoflush s); rewrite ?fmap_app; set_solver. }
      assert (match_key csi_code m ∉ mapping_key <$> visible_mappings s) as Hnew.
      { by apply Hex. }
      exists (m :: kept). subst s1. simpl. split_and!.
      * rewrite <- !app_assoc. simpl. do 2 f_equal. lia.
      * by apply sublist_skip.
      * intros Hauto. rewrite filter_cons_True.
        -- f_equal. by apply Hfilter.
        -- by rewrite <- (Hvis Hauto).
      * constructor; [done|]. eapply Forall_impl; [done|].
        intros m' Hm' Hin. by apply Hm', Hmono.
      * constructor; [right; left|]. eapply Forall_impl; [done|].
        intros m' [[?| ->]%Hinv|?]; [by left|right; left|right; by right].
Qed.


Lemma flush_keys rows added rows' :
  flush rows added = Some rows' →
  mapping_key <$> rows' = (mapping_key <$> rows) ++ (mapping_key <$> added).
Proof.
  revert rows. induction added as [|m added IH]; intros rows; simpl.
  - intros [= <-]. by rewrite app_nil_r.
  - case_bool_decide; [done|]. intros ->%IH.
    by rewrite fmap_app, <- app_assoc.
Qed.

Lemma flush_None rows added :
  unique_keys rows →
  flush rows added = None ↔ ¬ NoDup (mapping_key <$> (rows ++ added)).
Proof.
  intros Huniq. split.
  - intros Hnone Hnd. destruct (flush_spec rows added Hnd) as (? & ? & _). congruence.
  - intros Hdup. destruct (flush rows added) as [rows'|] eqn:Hflush; [|done].
    destruct Hdup. rewrite fmap_app, <- (flush_keys _ _ _ Hflush).
    by eapply flush_unique.
Qed.

Lemma create_keyword_mappings_cases csi_code matches relevance_map now s :
  ∃ kept,
    kept `sublist_of` matches
    ∧ (autoflush s = false →
       kept = filter (λ m, match_key csi_code m
                           ∉ mapping_key <$> csi_icc_mappings (store s)) matches)
    ∧ Forall (λ m, match_key csi_code m ∉ mapping_key <$> visible_mappings s) kept
    ∧ Forall (λ m, match_key csi_code m ∈ mapping_key <$> visible_mappings s
                   ∨ match_key csi_code m ∈ match_key csi_code <$> kept) matches
    ∧ let added :=
        new_mapping csi_code (default default_relevance_map relevance_map) now
          <$> kept in
      create_keyword_mappings csi_code matches relevance_map now s
      = if decide (kept = []) then (s, Ok 0)
        else
          match flush (csi_icc_mappings (store s)) (pending s ++ added) with
          | Some rows' =>
              (mkSession
                 (mkDatabase (csi_codes (store s)) (icc_documents (store s))
                    (icc_sections (store s)) rows')
                 [] (autoflush s) ((journal s ++ (WAdd <$> added)) ++ [WCommit]),
               Ok (Z.of_nat (length kept)))
          | None =>
              (mkSession (store s) [] (autoflush s)
                 ((journal s ++ (WAdd <$> added)) ++ [WCommit]),
               Raise IntegrityError)
          end.
Proof.
  destruct (create_keyword_mappings_loop_rows csi_code
              (default default_relevance_map relevance_map) now matches 0 s)
    as (kept & Hrun & Hsub & Hfilter & Hfresh & Hall).
  exists kept. split_and!; [done..|]. intros added.
  unfold create_keyword_mappings, bind. rewrite Hrun. fold added.
  destruct (decide (kept = [])) as [->|Hne].
  - simpl. by rewrite !app_nil_r, session_eta.
  - assert ((0 <? 0 + Z.of_nat (length kept)) = true) as ->.
    { apply Z.ltb_lt. destruct kept; [done|simpl; lia]. }
    unfold db_commit. cbn [store pending autoflush journal].
    by destruct (flush _ _).
Qed.

(** X20. Whatever its arguments and the session, the synthesizer leaves
    the CSI codes, the documents, the sections and the autoflush setting as
    they were and extends the mapping rows and the journal. It returns a
    count between 0 and the number of matches, having committed when the
    count is positive, or raises [IntegrityError], and nothing else; then
    the database is as it was before the call. *)
Theorem create_keyword_mappings_outcome (csi_code : CSICode.t)
    (matches : list MatchResult.t) (relevance_map : option (gmap string string))
    (now : Z) (s : Session) :
  let out := create_keyword_mappings csi_code matches relevance_map now s in
  csi_codes (store out.1) = csi_codes (store s)
  ∧ icc_documents (store out.1) = icc_documents (store s)
  ∧ icc_sections (store out.1) = icc_sections (store s)
  ∧ autoflush out.1 = autoflush s
  ∧ csi_icc_mappings (store s) `prefix_of` csi_icc_mappings (store out.1)
  ∧ journal s `prefix_of` journal out.1
  ∧ match out.2 with
    | Ok created =>
        0 ≤ created ≤ Z.of_nat (length matches)
        ∧ (0 < created → pending out.1 = [] ∧ last (journal out.1) = Some WCommit)
    | Raise e =>
        e = IntegrityError
        ∧ store out.1 = store s ∧ pending out.1 = []
        ∧ last (journal out.1) = Some WCommit
    end.
Proof.
  destruct (create_keyword_mappings_cases csi_code matches relevance_map now s)
    as (kept & Hsub & _ & _ & _ & Hrun).
  cbv zeta in *. rewrite Hrun. clear Hrun.
  apply sublist_length in Hsub.
  destruct (decide (kept = [])) as [->|Hne].
  - simpl. split_and!; [done..|lia|lia|lia].
  - destruct (flush _ _) as [rows'|] eqn:Hflush; simpl.
    + split_and!; [done..|by eapply flush_prefix| |lia|lia|].
      * rewrite <- app_assoc. by apply prefix_app_r.
      * intros _. split; [done|]. apply last_snoc.
    + split_and!; [done..| |done|done|done|apply last_snoc].
      rewrite <- app_assoc. by apply prefix_app_r.
Qed.


Lemma new_mapping_key csi_code relevance_map now m :
  mapping_key (new_mapping csi_code relevance_map now m) = match_key csi_code m.
Proof. done. Qed.



(** X22. On a session that does not autoflush and has no uncommitted row,
    over a table that satisfies the unique constraint, the synthesizer
    raises [IntegrityError] exactly when two of the matches without mapping
    are of the same section. *)
Theorem create_keyword_mappings_integrity_error (csi_code : CSICode.t)
    (matches : list MatchResult.t) (relevance_map : option (gmap string string))
    (now : Z) (s : Session) :
  autoflush s = false →
  pending s = [] →
  unique_keys (csi_icc_mappings (store s)) →
  (create_keyword_mappings csi_code matches relevance_map now s).2
  = Raise IntegrityError
  ↔ ¬ NoDup (match_key csi_code
               <$> filter (λ m, match_key csi_code m
                                ∉ mapping_key <$> csi_icc_mappings (store s))
                     matches).
Proof.
  intros Hauto Hpending Huniq.
  destruct (create_keyword_mappings_cases csi_code matches relevance_map now s)
    as (kept & _ & Hfilter & Hfresh & _ & Hrun).
  cbv zeta in Hrun. rewrite Hrun, Hpending. clear Hrun. simpl.
  rewrite <- (Hfilter Hauto).
  assert (visible_mappings s = csi_icc_mappings (store s)) as Hvis.
  { unfold visible_mappings. by rewrite Hauto, app_nil_r. }
  rewrite Hvis in Hfresh.
  set (added := new_mapping _ _ _ <$> kept).
  assert (mapping_key <$> added = match_key csi_code <$> kept) as Hkeys.
  { unfold added. by rewrite <- list_fmap_compose. }
  assert (NoDup (mapping_key <$> (csi_icc_mappings (store s) ++ added))
          ↔ NoDup (match_key csi_code <$> kept)) as Hnd.
  { rewrite fmap_app, Hkeys, NoDup_app. split; [by intros (_ & _ & ?)|].
    intros Hk. split_and!; [done| |done].
    intros k Hin (m & -> & Hm)%list_elem_of_fmap.
    by apply (proj1 (Forall_forall _ _) Hfresh m Hm). }
  destruct (decide (kept = [])) as [->|Hne].
  - simpl. split; [done|]. intros []. constructor.
  - destruct (flush _ _) as [rows'|] eqn:Hflush; simpl.
    + split; [done|]. intros Hdup. destruct Hdup. apply Hnd.
      rewrite fmap_app, <- (flush_keys _ _ _ Hflush). by eapply flush_unique.
    + split; [|done]. intros _ Hk.
      apply (proj1 (flush_None _ _ Huniq) Hflush). by apply Hnd.
Qed.

Lemma create_keyword_mappings_integrity_error_witness :
  (create_keyword_mappings csi_22_40 (take 1 sample_matches ++ take 1 sample_matches)
     None 1700000000 sample_session).2 = Raise IntegrityError.
Proof.
  apply (create_keyword_mappings_integrity_error csi_22_40
           (take 1 sample_matches ++ take 1 sample_matches) None 1700000000
           sample_session); [reflexivity|reflexivity|constructor|].
  apply (bool_decide_unpack _). by vm_compute.
Defined.

(** ** From the matches to the mappings *)

Lemma visible_mappings_committed s :
  pending s = [] → visible_mappings s = csi_icc_mappings (store s).
Proof.
  intros Hpending. unfold visible_mappings. rewrite Hpending.
  destruct (autoflush s); apply app_nil_r.
Qed.

Section Pipeline.
Context {Vocabulary Vector : Type}.
Context (fit : list string → Result Vocabulary).
Context (transform : Vocabulary → string → Vector).
Context (cosine_similarity : Vector → Vector → Q).
Context (argsort : list Q → list nat).
Implicit Types (self m : @KeywordMatcher Vocabulary Vector).

(** X23. The matches of [find_matches] are stored without failure: on a
    database whose sections have distinct primary keys and whose mapping
    table satisfies the unique constraint, for a CSI code of the database
    and a session without uncommitted rows, the synthesizer called with the
    results of [find_matches] returns the number of rows it appended; the
    table still satisfies the constraint, every result has its mapping, and
    every new row refers to a CSI code and to a section of the database. *)
Theorem find_matches_create_keyword_mappings self code s m csi_code top_n min_score
    relevance_map now results :
  argsort_contract argsort →
  (initialize fit transform self code s).2 = Ok m →
  NoDup (ICCSection.id <$> icc_sections (store s)) →
  csi_code ∈ csi_codes (store s) →
  pending s = [] →
  unique_keys (csi_icc_mappings (store s)) →
  find_matches transform cosine_similarity argsort m csi_code top_n min_score
  = Ok results →
  ∃ s1 new_rows,
    create_keyword_mappings csi_code results relevance_map now s
    = (s1, Ok (Z.of_nat (length new_rows)))
    ∧ csi_icc_mappings (store s1) = csi_icc_mappings (store s) ++ new_rows
    ∧ unique_keys (csi_icc_mappings (store s1))
    ∧ Forall (λ r, match_key csi_code r
                   ∈ mapping_key <$> csi_icc_mappings (store s1)) results
    ∧ Forall (λ row,
        CSIICCMapping.csi_code_id row ∈ CSICode.id <$> csi_codes (store s1)
        ∧ CSIICCMapping.icc_section_id row
          ∈ ICCSection.id <$> icc_sections (store s1)) new_rows.
Proof.
  intros Hc Hinit Hids Hcsi Hpending Huniq Hfind.
  destruct (find_matches_sections fit transform cosine_similarity argsort
              self code s m csi_code top_n min_score Hc Hinit)
    as (results' & Hrun' & Hcorpus & _ & Hdistinct).
  rewrite Hfind in Hrun'. injection Hrun' as <-.
  destruct (Hdistinct Hids) as [Hkeys _].
  destruct (create_keyword_mappings_cases csi_code results relevance_map now s)
    as (kept & Hsub & _ & Hfresh & Hall & Hrun).
  cbv zeta in Hrun. rewrite Hrun, Hpending. clear Hrun. simpl.
  rewrite visible_mappings_committed in Hfresh, Hall by done.
  destruct (decide (kept = [])) as [->|Hne].
  - exists s, []. rewrite app_nil_r. split_and!; [done..| |constructor].
    eapply Forall_impl; [exact Hall|]. by intros r [?|?%elem_of_nil].
  - set (added := new_mapping _ _ _ <$> kept).
    assert (mapping_key <$> added = match_key csi_code <$> kept) as Hadded.
    { unfold added. by rewrite <- list_fmap_compose. }
    destruct (flush_spec (csi_icc_mappings (store s)) added)
      as (rows' & Hflush & Hrows').
    { rewrite fmap_app, Hadded. apply NoDup_app. split_and!; [done| |].
      - intros k Hk (r & -> & Hr)%list_elem_of_fmap.
        by apply (proj1 (Forall_forall _ _) Hfresh r Hr).
      - eapply sublist_NoDup; [exact Hkeys|]. by apply fmap_sublist. }
    rewrite Hflush. eexists _, rows'. simpl.
    assert (length rows' = length kept) as Hlen.
    { by rewrite <- (length_fmap mapping_key rows'), Hrows', Hadded, length_fmap. }
    split_and!.
    + by rewrite Hlen.
    + done.
    + by eapply flush_unique.
    + eapply Forall_impl; [exact Hall|]. intros r Hr.
      cbn [store csi_icc_mappings].
      rewrite fmap_app, Hrows', Hadded. apply elem_of_app. exact Hr.
    + apply Forall_forall. intros row Hrow.
      assert (mapping_key row ∈ match_key csi_code <$> kept) as Hkey.
      { rewrite <- Hadded, <- Hrows'. by apply list_elem_of_fmap_2. }
      apply list_elem_of_fmap in Hkey as (r & Hkey & Hr).
      injection Hkey as -> ->. split.
      * by apply list_elem_of_fmap_2.
      * apply list_elem_of_fmap_2.
        eapply elem_of_sublist; [|apply (corpus_sections_sublist code s)].
        apply (proj1 (Forall_forall _ _) Hcorpus r).
        by eapply elem_of_sublist.
Qed.

End Pipeline.

Lemma find_matches_create_keyword_mappings_witness :
  ∃ s1 new_rows,
    create_keyword_mappings csi_22_40 sample_matches None 1700000000 sample_session
    = (s1, Ok (Z.of_nat (length new_rows)))
    ∧ csi_icc_mappings (store s1)
      = csi_icc_mappings (store sample_session) ++ new_rows
    ∧ unique_keys (csi_icc_mappings (store s1)).
Proof.
  destruct (find_matches_create_keyword_mappings bow_fit bow_transform jaccard
              insertion_argsort KeywordMatcher_init (Some "IPC") sample_session
              sample_matcher csi_22_40 10 0.1 None 1700000000 sample_matches)
    as (s1 & new_rows & Hrun & Hrows & Huniq & _).
  - apply insertion_argsort_contract.
  - exact sample_matcher_initialized.
  - apply (bool_decide_unpack _). vm_compute. exact I.
  - left.
  - reflexivity.
  - constructor.
  - vm_compute. reflexivity.
  - exists s1, new_rows. split; [exact Hrun|]. split; [exact Hrows|exact Huniq].
Defined.
